(** * electricitymap web server: routing, locale and asset-hash logic

    A shallow embedding of [server.js] (the Express application that serves
    the electricitymap front end) and of the properties its specification
    states about it.

    Conventions of the embedding:
    - JavaScript strings are [string]s; the string primitives the server uses
      ([indexOf], [replace] with a string pattern, [split] on a one-character
      separator) are defined in [JsString] after ECMA-262.
    - Values that come out of [JSON.parse] / [require('x.json')] are [jsval]s.
    - Code that can throw returns an [outcome]; [try]/[catch] is [try_catch].
    - Objects used as dictionaries ([localeConfigs], [srcHashes],
      [localeToFacebookLocale]) are [gmap string _].  Members inherited from
      [Object.prototype] are not modelled: keys are locale codes.
    - Third-party modules (sprintf-js, basic-auth, i18n, fs) are not part of
      the program; they are the fields of a [collaborators] record.
    - JavaScript numbers are the binary64 floats of the standard library
      ([PrimFloat]); [helpers/math.js] is embedded on them in [MathHelpers]. *)

From Stdlib Require Import String Ascii List ZArith Lia Bool Floats.
From stdpp Require Import base option list gmap strings fin_maps.
From Equations Require Import Equations.


(** ** JavaScript string primitives *)

Module JsString.

(** [s.startsWith(p)], the test at the heart of [indexOf]. *)
Fixpoint starts_with (p s : string) : bool :=
  match p, s with
  | EmptyString, _ => true
  | String a p', String b s' => if Ascii.eqb a b then starts_with p' s' else false
  | String _ _, EmptyString => false
  end.

(** [s.substring(n)]. *)
Fixpoint drop_chars (n : nat) (s : string) : string :=
  match n, s with
  | O, _ => s
  | S n', String _ s' => drop_chars n' s'
  | S _, EmptyString => EmptyString
  end.

(** The first occurrence of [p] in [s], as the text before it and the text
    after it; [None] when [p] does not occur ([indexOf] returns -1). *)
Fixpoint split_at_first (p s : string) : option (string * string) :=
  if starts_with p s then Some (EmptyString, drop_chars (String.length p) s)
  else match s with
       | EmptyString => None
       | String c s' =>
           match split_at_first p s' with
           | Some (before, after) => Some (String c before, after)
           | None => None
           end
       end.

(** [s.indexOf(p)], with [None] for -1. *)
Definition indexOf (p s : string) : option nat :=
  match split_at_first p s with
  | Some (before, _) => Some (String.length before)
  | None => None
  end.

(** [s.indexOf(p) !== -1]. *)
Definition includes (p s : string) : bool :=
  match indexOf p s with Some _ => true | None => false end.

(** GetSubstitution (ECMA-262 22.1.3.19.1) for a string pattern: there are
    no captures, so only [$$], [$&], [$`] and [$'] are special. *)
Fixpoint get_substitution (matched before after template : string) : string :=
  match template with
  | EmptyString => EmptyString
  | String "$"%char (String "$"%char r) =>
      String "$"%char (get_substitution matched before after r)
  | String "$"%char (String "&"%char r) =>
      matched +:+ get_substitution matched before after r
  | String "$"%char (String "`"%char r) =>
      before +:+ get_substitution matched before after r
  | String "$"%char (String "'"%char r) =>
      after +:+ get_substitution matched before after r
  | String c r => String c (get_substitution matched before after r)
  end.

(** [s.replace(p, r)] where [p] is a string: only the first occurrence is
    replaced, and [s] is returned as it is when there is none. *)
Definition replace (p r s : string) : string :=
  match split_at_first p s with
  | Some (before, after) =>
      before +:+ get_substitution p before after r +:+ after
  | None => s
  end.

(** [s.split(c)] for a one-character separator. *)
Fixpoint split (c : ascii) (s : string) : list string :=
  match s with
  | EmptyString => [EmptyString]
  | String a s' =>
      if Ascii.eqb a c then EmptyString :: split c s'
      else match split c s' with
           | h :: t => String a h :: t
           | [] => [String a EmptyString]
           end
  end.

(** [s.split(c, limit)]. *)
Definition split_limit (c : ascii) (limit : nat) (s : string) : list string :=
  take limit (split c s).

(** [s.toLowerCase()] on ASCII letters. *)
Definition lower_char (c : ascii) : ascii :=
  let n := nat_of_ascii c in
  if (65 <=? n)%nat && (n <=? 90)%nat then ascii_of_nat (n + 32) else c.

Fixpoint toLowerCase (s : string) : string :=
  match s with
  | EmptyString => EmptyString
  | String c s' => String (lower_char c) (toLowerCase s')
  end.

(** [s.endsWith(p)]. *)
Definition ends_with (p s : string) : bool :=
  (String.length p <=? String.length s)%nat
  && String.eqb (drop_chars (String.length s - String.length p) s) p.

(** [p] occurs in [s]. *)
Definition occurs (p s : string) : Prop :=
  exists before after, s = before +:+ p +:+ after.

(** [c] does not occur in [s]. *)
Fixpoint free_of (c : ascii) (s : string) : bool :=
  match s with
  | EmptyString => true
  | String a s' => negb (Ascii.eqb a c) && free_of c s'
  end.

End JsString.

(** ** Values, exceptions *)

(** What [JSON.parse] and [require] of a JSON file return, plus [undefined].
    Numbers are the integers (enough for lengths and integer literals). *)
#[warnings="-register-all"]
Inductive jsval : Type :=
| JUndefined
| JNull
| JBool (b : bool)
| JNum (n : Z)
| JStr (s : string)
| JArr (items : list jsval)
| JObj (fields : list (string * jsval)).

Inductive js_error : Type :=
| TypeError (message : string)
| ExternalError (message : string).

(** The result of running code that may throw. *)
Inductive outcome (A : Type) : Type :=
| Ok (a : A)
| Throw (e : js_error).
Arguments Ok {A} a.
Arguments Throw {A} e.

#[global] Instance outcome_ret : MRet outcome := fun A a => Ok a.
#[global] Instance outcome_bind : MBind outcome := fun A B f m =>
  match m with Ok a => f a | Throw e => Throw e end.

Module Js.

(** [!!v]. *)
Definition truthy (v : jsval) : bool :=
  match v with
  | JUndefined | JNull => false
  | JBool b => b
  | JNum n => negb (n =? 0)%Z
  | JStr s => negb (String.eqb s "")
  | JArr _ | JObj _ => true
  end.

(** [v == null]. *)
Definition nullish (v : jsval) : bool :=
  match v with JUndefined | JNull => true | _ => false end.

(** Own property of an object; the fields of a parsed object have distinct
    names. *)
Fixpoint assoc (k : string) (fields : list (string * jsval)) : jsval :=
  match fields with
  | [] => JUndefined
  | (k', v) :: rest => if String.eqb k k' then v else assoc k rest
  end.

(** A canonical array index: decimal digits without a leading zero. *)
Fixpoint digits_value (acc : nat) (s : string) : option nat :=
  match s with
  | EmptyString => Some acc
  | String c s' =>
      match Ascii.is_nat c with
      | Some d => digits_value (10 * acc + d) s'
      | None => None
      end
  end.

Definition array_index (k : string) : option nat :=
  match k with
  | EmptyString => None
  | String "0"%char EmptyString => Some 0%nat
  | String "0"%char _ => None
  | _ => digits_value 0 k
  end.

(** [v[k]] for a [v] that is neither [null] nor [undefined]. *)
Definition member (v : jsval) (k : string) : jsval :=
  match v with
  | JObj fields => assoc k fields
  | JArr items =>
      if String.eqb k "length" then JNum (Z.of_nat (length items))
      else match array_index k with
           | Some i => default JUndefined (items !! i)
           | None => JUndefined
           end
  | JStr s =>
      if String.eqb k "length" then JNum (Z.of_nat (String.length s))
      else match array_index k with
           | Some i =>
               match String.get i s with
               | Some c => JStr (String c EmptyString)
               | None => JUndefined
               end
           | None => JUndefined
           end
  | _ => JUndefined
  end.

(** The message of the [TypeError] for reading [k] off [null] or
    [undefined]. *)
Definition cannot_read (v : jsval) (k : string) : js_error :=
  TypeError ("Cannot read properties of "
             +:+ (match v with JNull => "null" | _ => "undefined" end)
             +:+ " (reading '" +:+ k +:+ "')").

(** [v[k]] in general: reading a property of [null] or [undefined] throws. *)
Definition get (v : jsval) (k : string) : outcome jsval :=
  if nullish v then Throw (cannot_read v k) else Ok (member v k).

(** [`${err}`]. *)
Definition show_error (e : js_error) : string :=
  match e with
  | TypeError m => "TypeError: " +:+ m
  | ExternalError m => "Error: " +:+ m
  end.

End Js.

(** ** Long-term caching: content hashes of the bundles *)

Module Assets.

(** [d.match(new RegExp('\.' + ext + '$'))] is truthy.  In the string
    literal ['\.'] the backslash is dropped, so the regular expression is
    [.ext$]: one character that is not a line terminator, then [ext], then
    the end of the input ([ext] is ['js'] or ['css'], without
    metacharacters). *)
Definition line_terminator (c : ascii) : bool :=
  Ascii.eqb c "010"%char || Ascii.eqb c "013"%char.

Definition matches_ext (ext d : string) : bool :=
  let n := String.length d - String.length ext in
  JsString.ends_with ext d
  && match n with
     | O => false
     | S m =>
         match String.get m d with
         | Some c => negb (line_terminator c)
         | None => false
         end
     end.

(** [list.filter((d) => d.match(...))]: an element that is not a string has
    no [match] method, and calling it throws. *)
Fixpoint filter_ext (ext : string) (items : list jsval) : outcome (list jsval) :=
  match items with
  | [] => Ok []
  | JStr d :: rest =>
      kept ← filter_ext ext rest;
      Ok (if matches_ext ext d then JStr d :: kept else kept)
  | JUndefined :: _ => Throw (Js.cannot_read JUndefined "match")
  | JNull :: _ => Throw (Js.cannot_read JNull "match")
  | _ :: _ => Throw (TypeError "d.match is not a function")
  end.

(** [getHash(key, ext, obj)]. *)
Definition getHash (key ext : string) (obj : jsval) : outcome string :=
  chunks ← Js.get obj "assetsByChunkName";
  entry ← Js.get chunks key;
  filename ←
    match entry with
    | JStr s => Ok (JStr s)
    | JArr items =>
        kept ← filter_ext ext items;
        Ok (default JUndefined (kept !! 0%nat))
    | JUndefined => Throw (Js.cannot_read JUndefined "filter")
    | JNull => Throw (Js.cannot_read JNull "filter")
    | _ => Throw (TypeError "obj.assetsByChunkName[key].filter is not a function")
    end;
  match filename with
  | JStr f =>
      Ok (JsString.replace (key +:+ ".") "" (JsString.replace ("." +:+ ext) "" f))
  | _ => Throw (TypeError "Cannot read properties of undefined (reading 'replace')")
  end.

Record hashes : Type := {
  BUNDLE_HASH : string;
  STYLES_HASH : string;
  VENDOR_HASH : string;
  VENDOR_STYLES_HASH : string
}.

(** Start-up code: it writes to the console and may throw. *)
Definition startup (A : Type) : Type :=
  list string -> outcome A * list string.

Definition pure {A} (a : A) : startup A := fun console => (Ok a, console).

Definition and_then {A B} (m : startup A) (f : A -> startup B) : startup B :=
  fun console =>
    match m console with
    | (Ok a, console') => f a console'
    | (Throw e, console') => (Throw e, console')
    end.

Definition lift {A} (m : outcome A) : startup A := fun console => (m, console).

(** [console.warn(line)]. *)
Definition console_warn (line : string) : startup unit :=
  fun console => (Ok tt, console ++ [line]).

(** [try { body } catch (err) { handler(err) }]. *)
Definition try_catch {A} (body : startup A) (handler : js_error -> startup A)
  : startup A :=
  fun console =>
    match body console with
    | (Ok a, console') => (Ok a, console')
    | (Throw e, console') => handler e console'
    end.

(** [list.map(f)] for an [f] that has effects. *)
Fixpoint map_startup {A B} (f : A -> startup B) (l : list A) : startup (list B) :=
  match l with
  | [] => pure []
  | x :: rest =>
      and_then (f x) (fun y =>
      and_then (map_startup f rest) (fun ys => pure (y :: ys)))
  end.

Section Bootstrap.

(** [JSON.parse(fs.readFileSync(`${STATIC_PATH}/dist/manifest_${k}.json`))]
    as a function of the locale [k]: the file system is not part of the
    program. *)
Variable readManifest : string -> outcome jsval.

(** The body of the [try] block, lines 95-102. *)
Definition load_hashes (k : string) : outcome hashes :=
  obj ← readManifest k;
  bundle ← getHash "bundle" "js" obj;
  styles ← getHash "styles" "css" obj;
  vendor ← getHash "vendor" "js" obj;
  vendor_styles ← getHash "vendor" "css" obj;
  Ok {| BUNDLE_HASH := bundle; STYLES_HASH := styles;
        VENDOR_HASH := vendor; VENDOR_STYLES_HASH := vendor_styles |}.

Definition warning (k : string) (err : js_error) : string :=
  "Warning: couldn't load manifest for locale " +:+ k +:+ ": "
  +:+ Js.show_error err.

(** What the [map] callback returns for a locale, and what it logs. *)
Definition entry_of (k : string) : option (string * hashes) :=
  match load_hashes k with
  | Ok h => Some (k, h)
  | Throw _ => None
  end.

Definition warning_of (k : string) : option string :=
  match load_hashes k with
  | Ok _ => None
  | Throw e => Some (warning k e)
  end.

(** The callback of [locales.map], with its [try]/[catch]. *)
Definition srcHashes_entry (k : string) : startup (option (string * hashes)) :=
  try_catch
    (and_then (lift (load_hashes k)) (fun h => pure (Some (k, h))))
    (fun err => and_then (console_warn (warning k err)) (fun _ => pure None)).

(** [Object.fromEntries]: a later entry overrides an earlier one. *)
Definition fromEntries (entries : list (string * hashes)) : gmap string hashes :=
  fold_left (fun table entry => <[entry.1 := entry.2]> table) entries ∅.

(** [.filter(d => d)] drops the [null]s. *)
Definition srcHashes_build (locales : list string) : startup (gmap string hashes) :=
  and_then (map_startup srcHashes_entry locales) (fun entries =>
  pure (fromEntries (omap id entries))).

End Bootstrap.

End Assets.


(** ** Translation lookup *)

Module Translation.

Section WithLocaleFiles.

(** [vsprintf] of sprintf-js. *)
Variable vsprintf : jsval -> list jsval -> outcome jsval.

(** [localeConfigs]: the parsed [locales/<d>.json] of every locale. *)
Variable localeConfigs : gmap string jsval.

(** The [for] loop of lines 70-73, started at [result]. *)
Fixpoint walk (keys : list string) (result : jsval) : jsval :=
  match keys with
  | [] => result
  | k :: rest =>
      if Js.nullish result then result
      else walk rest (Js.member result k)
  end.

(** Lines 68-73: the value the key path leads to in a locale's tree. *)
Definition lookup_path (locale keyStr : string) : jsval :=
  walk (JsString.split "."%char keyStr)
       (default JUndefined (localeConfigs !! locale)).

(** The guard of line 74. *)
Definition falls_back (locale keyStr : string) : bool :=
  negb (String.eqb locale "en") && negb (Js.truthy (lookup_path locale keyStr)).

(** A value together with the fact that it is the value of [a]. *)
Definition inspect {A} (a : A) : {b : A | a = b} := exist _ a eq_refl.

Definition fallback_depth (locale : string) : nat :=
  if String.eqb locale "en" then 0%nat else 1%nat.

(** [translateWithLocale(locale, keyStr, ...formatArgs)].  The recursive
    call of line 75 passes two arguments, so that its own [formatArgs]
    is the empty array. *)
Equations? translateWithLocale (locale keyStr : string) (formatArgs : list jsval)
  : outcome jsval by wf (fallback_depth locale) lt :=
  translateWithLocale locale keyStr formatArgs
    with inspect (falls_back locale keyStr) := {
    | exist _ true taken => translateWithLocale "en" keyStr []
    | exist _ false _ =>
        let result := lookup_path locale keyStr in
        if Js.truthy result then vsprintf result formatArgs else Ok result
    }.
Proof.
  unfold falls_back in taken. unfold fallback_depth.
  destruct (String.eqb locale "en"); simpl in *; [discriminate | lia].
Qed.

End WithLocaleFiles.

End Translation.

(** ** The Express application *)

Module Server.

(** A value of [req.query], as the query-string parser builds it. *)
#[warnings="-register-all"]
Inductive qvalue : Type :=
| QStr (s : string)
| QArr (items : list qvalue)
| QObj (fields : list (string * qvalue)).

(** String concatenation applied to a query value: ['lang=' + v]. *)
Fixpoint qvalue_to_string (v : qvalue) : string :=
  match v with
  | QStr s => s
  | QArr items =>
      String.concat "," (map qvalue_to_string items)
  | QObj _ => "[object Object]"
  end.

Definition query_param_to_string (v : option qvalue) : string :=
  match v with
  | Some q => qvalue_to_string q
  | None => "undefined"
  end.

Record request : Type := {
  method : string;
  originalUrl : string;                (* path and query string, as received *)
  headers : gmap string string;        (* [req.headers], names in lower case *)
  query : list (string * qvalue);      (* [req.query] *)
  secure : bool;
  hostname : string
}.

Fixpoint query_get (k : string) (q : list (string * qvalue)) : option qvalue :=
  match q with
  | [] => None
  | (k', v) :: rest => if String.eqb k k' then Some v else query_get k rest
  end.

(** [process.env]. *)
Record environment : Type := {
  NODE_ENV : option string;
  BASIC_AUTH_CREDENTIALS : option string;
  ELECTRICITYMAP_TOKEN : option string
}.

(** [locales-config.json], the locale files and [package.json]. *)
Record site : Type := {
  locales : list string;               (* [Object.keys(languageNames)] *)
  localeToFacebookLocale : gmap string string;
  supportedFacebookLocales : list string;
  localeConfigs : gmap string jsval;
  version : string
}.

(** The modules the server calls and does not define. *)
Record collaborators : Type := {
  vsprintf : jsval -> list jsval -> outcome jsval;     (* sprintf-js *)
  auth : request -> option (string * string);          (* basic-auth: name, pass *)
  i18n_init : request -> string;                       (* [res.locale] after [i18n.init] *)
  setLocale : string -> string;                        (* [res.locale] after [res.setLocale(l)] *)
  readManifest : string -> outcome jsval;              (* manifest of a locale *)
  static_file : string -> bool;                        (* a file exists under STATIC_PATH *)
  getTranslationStatusJSON : list string + string -> jsval;
  getTranslationStatusSVG : string
}.

(** What [res.render] receives. *)
Record view_model : Type := {
  alternateUrls : list string;
  bundleHash : string;
  vendorHash : string;
  stylesHash : string;
  vendorStylesHash : string;
  fullUrl : string;
  locale : string;
  supportedLocales : list string;
  FBLocale : option string;
  supportedFBLocales : list string;
  translate : string -> list jsval -> outcome jsval      (* ['__'] *)
}.

(** How a request ends.  The headers every response carries (CORS, set by
    the first middleware) are left out. *)
Inductive response : Type :=
| Json (status : nat) (body : jsval)
| Text (status : nat) (extra_headers : list (string * string)) (body : string)
| Redirect (status : nat) (location : string)
| Render (cookies : list (string * option string)) (view : string) (model : view_model)
| Static (path : string)
| Uncaught (cookies : list (string * option string)) (e : js_error).

Definition double_quote : string := String (ascii_of_nat 34) EmptyString.

Definition challenge : string :=
  "Basic realm=" +:+ double_quote +:+ "Premium access to electricitymap.org"
  +:+ double_quote.

Definition sentry_addresses : list string :=
  ["35.184.238.160"; "104.155.159.182"; "104.155.149.19"; "130.211.230.102"].

(** [req.path]: [originalUrl] up to the query string, for a request target
    in origin form (a path, then an optional query). *)
Definition path_of (url : string) : string :=
  match JsString.split_at_first "?" url with
  | Some (before, _) => before
  | None => url
  end.

(** Express route matching: case-insensitive, one optional trailing [/]. *)
Definition strip_slash (p : string) : string :=
  if JsString.ends_with "/" p
  then String.substring 0 (String.length p - 1) p else p.

Definition route_exact (pattern path : string) : bool :=
  let p := JsString.toLowerCase path in
  String.eqb p (JsString.toLowerCase pattern)
  || String.eqb p (JsString.toLowerCase pattern +:+ "/").

(** A pattern [prefix*]. *)
Definition route_star (prefix path : string) : bool :=
  JsString.starts_with prefix (JsString.toLowerCase path).

(** A pattern [prefix*suffix]. *)
Definition route_star_suffix (prefix suffix path : string) : bool :=
  let p := JsString.toLowerCase path in
  JsString.starts_with prefix p
  && JsString.ends_with suffix
       (strip_slash (JsString.drop_chars (String.length prefix) p)).

(** A pattern [prefix:param]: the parameter is one non-empty segment, here
    as it is written in the path (Express hands over its percent-decoding). *)
Definition route_param (prefix path : string) : option string :=
  if JsString.starts_with prefix (JsString.toLowerCase path) then
    let segment := strip_slash (JsString.drop_chars (String.length prefix) path) in
    if String.eqb segment "" || JsString.includes "/" segment then None
    else Some segment
  else None.

(** [app.get] also answers HEAD. *)
Definition is_get (req : request) : bool :=
  String.eqb (method req) "GET" || String.eqb (method req) "HEAD".

Section App.

Variable C : collaborators.
Variable env : environment.
Variable cfg : site.

(** [srcHashes], computed when the module is loaded. *)
Variable srcHashes : gmap string Assets.hashes.

Definition handler : Type := request -> option response.

Definition health : handler := fun req =>
  if is_get req && route_exact "/health" (path_of (originalUrl req))
  then Some (Json 200 (JObj [("status", JStr "ok")])) else None.

Definition clientVersion : handler := fun req =>
  if is_get req && route_exact "/clientVersion" (path_of (originalUrl req))
  then Some (Text 200 [] (version cfg)) else None.

Definition translationstatus_badges : handler := fun req =>
  if is_get req
     && route_exact "/translationstatus/badges.svg" (path_of (originalUrl req))
  then Some (Text 200 [("Content-Type", "image/svg+xml;charset=utf-8")]
                  (getTranslationStatusSVG C))
  else None.

Definition translationstatus : handler := fun req =>
  if is_get req && route_exact "/translationstatus" (path_of (originalUrl req))
  then Some (Json 200 (getTranslationStatusJSON C (inl (locales cfg)))) else None.

Definition translationstatus_language : handler := fun req =>
  if is_get req then
    match route_param "/translationstatus/" (path_of (originalUrl req)) with
    | Some language => Some (Json 200 (getTranslationStatusJSON C (inr language)))
    | None => None
    end
  else None.

(** Lines 127-130. *)
Definition api_redirect (prefix : string) : handler := fun req =>
  if is_get req && route_star prefix (path_of (originalUrl req))
  then Some (Redirect 301 ("https://api.electricitymap.org" +:+ originalUrl req))
  else None.

(** Lines 133-144. *)
Definition source_maps : handler := fun req =>
  if route_star_suffix "/dist/" ".map" (path_of (originalUrl req)) then
    match headers req !! "x-forwarded-for" with
    | Some ip =>
        if bool_decide (ip ∈ sentry_addresses)
        then Some (Json 401 (JObj [("error", JStr "unauthorized")]))
        else None
    | None => None
    end
  else None.

(** [express.static]. *)
Definition static_files : handler := fun req =>
  if is_get req && static_file C (path_of (originalUrl req))
  then Some (Static (path_of (originalUrl req))) else None.

(** Lines 154-157. *)
Definition isTmrowCo (host : string) : bool :=
  JsString.includes "electricitymap.tmrow" host.

Definition isNonWWW (host : string) : bool :=
  String.eqb host "electricitymap.org"
  || String.eqb host "live.electricitymap.org".

Definition isStaging (host : string) : bool :=
  String.eqb host "staging.electricitymap.org".

(** [(req.headers['user-agent'] || '').indexOf('facebookexternalhit') == -1]. *)
Definition isFacebookCrawler (req : request) : bool :=
  JsString.includes "facebookexternalhit"
    (default "" (headers req !! "user-agent")).

(** The condition of line 162. *)
Definition redirects_to_canonical (host : string) (req : request) : bool :=
  negb (isStaging host) && (isNonWWW host || isTmrowCo host)
  && negb (isFacebookCrawler req).

(** Lines 171-177: the locale of the response. *)
Definition resolve_locale (req : request) : outcome string :=
  match query_get "fb_locale" (query req) with
  | None => Ok (i18n_init C req)
  | Some (QStr fb) =>
      if String.eqb fb "" then Ok (i18n_init C req)
      else Ok (setLocale C (default "" (JsString.split_limit "_"%char 2 fb !! 0%nat)))
  | Some _ => Throw (TypeError "req.query.fb_locale.split is not a function")
  end.

(** Lines 185-190: one configured pair against the request's. *)
Definition credential_matches (user : string * string) (cred : string) : bool :=
  let parts := JsString.split ":"%char cred in
  match parts !! 0%nat, parts !! 1%nat with
  | Some name, Some pass => String.eqb name user.1 && String.eqb pass user.2
  | _, _ => false
  end.

Definition authorized (credentials : string) (req : request) : bool :=
  match auth C req with
  | Some user =>
      existsb (credential_matches user) (JsString.split ","%char credentials)
  | None => false
  end.

(** The configured list read as the specification does: every entry of the
    comma-separated list is a [name:pass] pair, with one colon. *)
Definition well_formed_pairs (credentials : string) : Prop :=
  forall cred, cred ∈ JsString.split ","%char credentials ->
    exists name pass, JsString.split ":"%char cred = [name; pass].

(** The request carries the name and password of one configured pair. *)
Definition presents_configured_pair (credentials : string) (req : request) : Prop :=
  exists name pass,
    auth C req = Some (name, pass)
    /\ (name +:+ ":" +:+ pass) ∈ JsString.split ","%char credentials.

(** [if (process.env.BASIC_AUTH_CREDENTIALS)]. *)
Definition configured_credentials : option string :=
  match BASIC_AUTH_CREDENTIALS env with
  | Some c => if String.eqb c "" then None else Some c
  | None => None
  end.

Definition access_denied : response :=
  Text 401 [("WWW-Authenticate", challenge)] "Access denied".

Definition token_cookie : list (string * option string) :=
  [("electricitymap-token", ELECTRICITYMAP_TOKEN env)].

(** Lines 201-211, for one locale [l]. *)
Definition alternateUrl (req : request) (l : string) : string :=
  let fullUrl := "https://www.electricitymap.org" +:+ originalUrl req in
  if JsString.includes "lang" fullUrl then
    JsString.replace
      ("lang=" +:+ query_param_to_string (query_get "lang" (query req)))
      ("lang=" +:+ l) fullUrl
  else if negb (Nat.eqb (length (query req)) 0) then
    fullUrl +:+ "&lang=" +:+ l
  else
    JsString.replace "?" "" fullUrl +:+ "?lang=" +:+ l.

(** Lines 200-227: the argument of [res.render] is built first, and
    [srcHashes[locale].BUNDLE_HASH] throws when the table has no record
    for [locale]. *)
Definition render_page (cookies : list (string * option string))
    (locale : string) (req : request) : response :=
  let urls := map (alternateUrl req) (locales cfg) in
  match srcHashes !! locale with
  | None =>
      Uncaught cookies
        (TypeError "Cannot read properties of undefined (reading 'BUNDLE_HASH')")
  | Some h =>
      Render cookies "pages/index"
        {| alternateUrls := urls;
           bundleHash := Assets.BUNDLE_HASH h;
           vendorHash := Assets.VENDOR_HASH h;
           stylesHash := Assets.STYLES_HASH h;
           vendorStylesHash := Assets.VENDOR_STYLES_HASH h;
           fullUrl := "https://www.electricitymap.org" +:+ originalUrl req;
           locale := locale;
           supportedLocales := locales cfg;
           FBLocale := localeToFacebookLocale cfg !! locale;
           supportedFBLocales := supportedFacebookLocales cfg;
           translate :=
             Translation.translateWithLocale (vsprintf C) (localeConfigs cfg) locale |}
  end.

(** Lines 180-199, then the render. *)
Definition gate_and_render (locale : string) (req : request) : response :=
  match configured_credentials with
  | Some credentials =>
      if authorized credentials req
      then render_page token_cookie locale req
      else access_denied
  | None => render_page [] locale req
  end.

(** Lines 150-229: [app.use('/', ...)]. *)
Definition page (req : request) : response :=
  match headers req !! "host" with
  | None =>
      Uncaught [] (TypeError "Cannot read properties of undefined (reading 'indexOf')")
  | Some host =>
      if redirects_to_canonical host req
      then Redirect 301 ("https://www.electricitymap.org" +:+ originalUrl req)
      else
        match resolve_locale req with
        | Throw e => Uncaught [] e
        | Ok locale => gate_and_render locale req
        end
  end.

(** The routes, in the order in which they are registered. *)
Definition routes : list handler :=
  [ health; clientVersion; translationstatus_badges; translationstatus;
    translationstatus_language; api_redirect "/v1/"; api_redirect "/v2/";
    source_maps; static_files; fun req => Some (page req) ].

Fixpoint dispatch (hs : list handler) (req : request) : option response :=
  match hs with
  | [] => None
  | h :: rest =>
      match h req with
      | Some r => Some r
      | None => dispatch rest req
      end
  end.

Definition app (req : request) : response :=
  default (Text 404 [] "Not Found") (dispatch routes req).

End App.

(** The module from top to bottom: the hash table is built, then the
    server listens with it. *)
Definition main (C : collaborators) (env : environment) (cfg : site)
  : Assets.startup (request -> response) :=
  Assets.and_then (Assets.srcHashes_build (readManifest C) (locales cfg))
    (fun srcHashes => Assets.pure (app C env cfg srcHashes)).

End Server.

(** ** [helpers/math.js] *)

Module MathHelpers.

(** [isFinite] of lodash on a number: neither [NaN] nor an infinity. *)
Definition isFinite (x : float) : bool := PrimFloat.is_finite x.

(** [Math.round] (ECMA-262 21.3.2.28): a number that is not finite or is
    integral is returned as it is; otherwise the result is the integer
    nearest to [x], the one towards +∞ when two are as near, and it keeps
    the sign of [x] when it is zero.  For [x = ±m·2^e] with [e < 0] that
    integer is the floor of [(±2m + 2^-e) / 2^(1-e)], computed exactly. *)
Definition round (x : float) : float :=
  match Prim2SF x with
  | S754_finite s m e =>
      if (0 <=? e)%Z then x
      else
        SF2Prim
          (binary_normalize prec emax
             (Z.div (2 * (if s then Z.neg m else Z.pos m) + 2 ^ (- e))
                    (2 ^ (1 - e)))
             0 s)
  | _ => x
  end.

Section NumberToString.

(** [`${perc}`]: the conversion of a number to a string is the engine's. *)
Variable toString : float -> string.

(** [getRatioPercent(value, total)]. *)
Definition getRatioPercent (value total : float) : string :=
  let perc := (round (value / total * 10000) / 100)%float in
  if isFinite perc then toString perc else "?".

End NumberToString.

(** [tonsPerHourToGramsPerMinute(value)]. *)
Definition tonsPerHourToGramsPerMinute (value : float) : float :=
  (value / 1e6 / 60)%float.

End MathHelpers.

(** ** A deployment to run the server on *)

Module Scenario.
Import Server.

(** The site has three locales; the manifest of [fr] is missing. *)
Definition manifest_en : jsval :=
  JObj [("assetsByChunkName",
         JObj [("bundle", JArr [JStr "bundle.abc123.js"; JStr "bundle.abc123.js.map"]);
               ("styles", JStr "styles.0f1e2d.css");
               ("vendor", JArr [JStr "vendor.77aa10.js"; JStr "vendor.5b5b5b.css"])])].

Definition manifests (k : string) : outcome jsval :=
  if String.eqb k "en" || String.eqb k "de" then Ok manifest_en
  else Throw (ExternalError "ENOENT: no such file or directory").

Definition credentials_of (req : request) : option (string * string) :=
  match headers req !! "authorization" with
  | Some "Basic YWxpY2U6c2VjcmV0" => Some ("alice", "secret")
  | Some "Basic Ym9iOmh1bnRlcjI=" => Some ("bob", "hunter2")
  | _ => None
  end.

Definition collaborators_here : collaborators :=
  {| vsprintf := fun format _ => Ok format;
     auth := credentials_of;
     i18n_init := fun _ => "en";
     setLocale := fun l =>
       if bool_decide (l ∈ ["en"; "de"; "fr"]) then l else "en";
     readManifest := manifests;
     static_file := fun path => String.eqb path "/dist/bundle.abc123.js.map";
     getTranslationStatusJSON := fun _ => JObj [];
     getTranslationStatusSVG := "<svg/>" |}.

Definition site_here : site :=
  {| locales := ["en"; "de"; "fr"];
     localeToFacebookLocale :=
       {[ "en" := "en_US"; "de" := "de_DE"; "fr" := "fr_FR" ]};
     supportedFacebookLocales := ["en_US"; "de_DE"; "fr_FR"];
     localeConfigs :=
       {[ "en" := JObj [("greeting", JStr "Hello %s");
                        ("country", JObj [("de", JStr "Germany")])];
          "de" := JObj [("greeting", JStr "Hallo %s")];
          "fr" := JObj [("country", JObj [])] ]};
     version := "1.0.0" |}.

Definition open_env : environment :=
  {| NODE_ENV := Some "production";
     BASIC_AUTH_CREDENTIALS := None;
     ELECTRICITYMAP_TOKEN := Some "token" |}.

Definition premium_env : environment :=
  {| NODE_ENV := Some "production";
     BASIC_AUTH_CREDENTIALS := Some "alice:secret";
     ELECTRICITYMAP_TOKEN := Some "token" |}.

(** The table the server builds here. *)
Definition hashes_en : Assets.hashes :=
  {| Assets.BUNDLE_HASH := "abc123"; Assets.STYLES_HASH := "0f1e2d";
     Assets.VENDOR_HASH := "77aa10"; Assets.VENDOR_STYLES_HASH := "5b5b5b" |}.

Definition table_here : gmap string Assets.hashes :=
  {[ "en" := hashes_en; "de" := hashes_en ]}.

Definition get (host user_agent url : string) (q : list (string * qvalue))
  : request :=
  {| method := "GET"; originalUrl := url;
     headers := {[ "host" := host; "user-agent" := user_agent ]};
     query := q; secure := false; hostname := host |}.

Definition with_header (name value : string) (req : request) : request :=
  {| method := method req; originalUrl := originalUrl req;
     headers := <[name := value]> (headers req);
     query := query req; secure := secure req; hostname := hostname req |}.

Definition with_method (m : string) (req : request) : request :=
  {| method := m; originalUrl := originalUrl req; headers := headers req;
     query := query req; secure := secure req; hostname := hostname req |}.

(** The two manifests of the specification's examples. *)
Definition manifest_single : jsval :=
  JObj [("assetsByChunkName", JObj [("bundle", JStr "bundle.abc123.js")])].

Definition manifest_list : jsval :=
  JObj [("assetsByChunkName",
         JObj [("bundle", JArr [JStr "bundle.abc123.js"; JStr "bundle.abc123.js.map"])])].

(** A chunk list in which the source map and a stylesheet come first and a
    second script last. *)
Definition manifest_map_first : jsval :=
  JObj [("assetsByChunkName",
         JObj [("bundle", JArr [JStr "bundle.abc123.js.map"; JStr "bundle.css";
                                JStr "bundle.abc123.js"; JStr "bundle.ffff00.js"])])].

(** A rendering of numbers, for running [getRatioPercent]. *)
Definition show_number (x : float) : string :=
  if (x =? 25)%float then "25" else "a number".

(** Two clients of the premium site. *)
Definition request_of_alice : request :=
  with_header "authorization" "Basic YWxpY2U6c2VjcmV0"
    (get "www.electricitymap.org" "Mozilla/5.0" "/" []).

Definition request_of_bob : request :=
  with_header "authorization" "Basic Ym9iOmh1bnRlcjI="
    (get "www.electricitymap.org" "Mozilla/5.0" "/" []).

End Scenario.

(** * Properties *)

(** ** Strings *)

Module JsStringFacts.
Import JsString.

Local Arguments String.append : simpl nomatch.

Lemma append_nil_r (s : string) : s +:+ "" = s.
Proof. induction s as [|c s IH]; simpl; [reflexivity | now rewrite IH]. Qed.

Lemma append_assoc (s t u : string) : (s +:+ t) +:+ u = s +:+ t +:+ u.
Proof. induction s as [|c s IH]; simpl; [reflexivity | now rewrite IH]. Qed.

Lemma length_append (s t : string) :
  String.length (s +:+ t) = (String.length s + String.length t)%nat.
Proof. induction s as [|c s IH]; simpl; [reflexivity | now rewrite IH]. Qed.

Lemma app_inv_length (s1 s2 t1 t2 : string) :
  String.length s1 = String.length s2 ->
  s1 +:+ t1 = s2 +:+ t2 -> s1 = s2 /\ t1 = t2.
Proof.
  revert s2. induction s1 as [|c s1 IH]; intros [|d s2] Hlen Heq;
    simpl in *; try discriminate.
  - now split.
  - injection Heq as -> Heq. injection Hlen as Hlen.
    destruct (IH s2 Hlen Heq) as [-> ->]. now split.
Qed.

Lemma drop_chars_app (p t : string) : drop_chars (String.length p) (p +:+ t) = t.
Proof. induction p as [|c p IH]; simpl; [now destruct t | exact IH]. Qed.

Lemma starts_with_app (p t : string) : starts_with p (p +:+ t) = true.
Proof.
  induction p as [|c p IH]; simpl; [reflexivity |].
  now rewrite Ascii.eqb_refl.
Qed.

Lemma starts_with_inv (p s : string) :
  starts_with p s = true -> s = p +:+ drop_chars (String.length p) s.
Proof.
  revert s. induction p as [|c p IH]; intros s H; simpl in *.
  - now destruct s.
  - destruct s as [|d s]; [discriminate |].
    destruct (Ascii.eqb c d) eqn:E; [| discriminate].
    apply Ascii.eqb_eq in E as ->. f_equal. now apply IH.
Qed.

Lemma split_at_first_unfold (p s : string) :
  split_at_first p s =
  if starts_with p s then Some ("", drop_chars (String.length p) s)
  else match s with
       | EmptyString => None
       | String c s' =>
           match split_at_first p s' with
           | Some (before, after) => Some (String c before, after)
           | None => None
           end
       end.
Proof. now destruct s. Qed.

(** What [split_at_first] returns is an occurrence of the pattern. *)
Lemma split_at_first_sound (p s before after : string) :
  split_at_first p s = Some (before, after) -> s = before +:+ p +:+ after.
Proof.
  revert before after. induction s as [|c s IH]; intros b a;
    rewrite split_at_first_unfold.
  - destruct (starts_with p "") eqn:E; [| discriminate].
    intros [= <- <-]. now apply starts_with_inv.
  - destruct (starts_with p (String c s)) eqn:E.
    + intros [= <- <-]. now apply starts_with_inv.
    + destruct (split_at_first p s) as [[b' a']|] eqn:Hs; [| discriminate].
      intros [= <- <-]. simpl. f_equal. now apply IH.
Qed.

(** It is the first one. *)
Lemma split_at_first_minimal (p s before after b' a' : string) :
  split_at_first p s = Some (before, after) ->
  s = b' +:+ p +:+ a' -> (String.length before <= String.length b')%nat.
Proof.
  revert before after b'. induction s as [|c s IH]; intros b a b';
    rewrite split_at_first_unfold.
  - destruct (starts_with p ""); [| discriminate].
    intros [= <- <-] _. simpl. lia.
  - destruct (starts_with p (String c s)) eqn:E.
    + intros [= <- <-] _. simpl. lia.
    + destruct (split_at_first p s) as [[b0 a0]|] eqn:Hs; [| discriminate].
      intros [= <- <-] Heq. destruct b' as [|d b']; simpl in *.
      * rewrite Heq, starts_with_app in E. discriminate.
      * injection Heq as -> Heq. specialize (IH _ _ _ eq_refl Heq). lia.
Qed.

(** A pattern that occurs is found. *)
Lemma split_at_first_complete (p s : string) :
  occurs p s -> exists before after, split_at_first p s = Some (before, after).
Proof.
  intros (b & a & ->). induction b as [|c b IH];
    rewrite split_at_first_unfold; simpl.
  - rewrite starts_with_app. eauto.
  - destruct (starts_with p (String c (b +:+ p +:+ a))); [eauto |].
    destruct IH as (b0 & a0 & ->). eauto.
Qed.

Lemma split_at_first_None (p s : string) :
  split_at_first p s = None <-> ~ occurs p s.
Proof.
  split.
  - intros H Hocc. apply split_at_first_complete in Hocc as (b & a & Hs).
    congruence.
  - intros H. destruct (split_at_first p s) as [[b a]|] eqn:Hs; [| reflexivity].
    exfalso. apply H. exists b, a. now apply split_at_first_sound.
Qed.

(** The occurrence at a given position, when it is the first. *)
Lemma split_at_first_at (p before after : string) :
  indexOf p (before +:+ p +:+ after) = Some (String.length before) ->
  split_at_first p (before +:+ p +:+ after) = Some (before, after).
Proof.
  unfold indexOf.
  destruct (split_at_first p (before +:+ p +:+ after)) as [[b a]|] eqn:Hs;
    [| discriminate].
  intros [= Hlen]. pose proof (split_at_first_sound _ _ _ _ Hs) as Heq.
  destruct (app_inv_length _ _ _ _ (eq_sym Hlen) Heq) as [-> Heq'].
  apply (app_inv_length p p) in Heq' as [_ ->]; reflexivity.
Qed.

Lemma split_at_first_prefix (p t : string) :
  split_at_first p (p +:+ t) = Some ("", t).
Proof.
  rewrite split_at_first_unfold, starts_with_app. now rewrite drop_chars_app.
Qed.

Lemma split_at_first_self (p : string) : split_at_first p p = Some ("", "").
Proof.
  pose proof (split_at_first_prefix p "") as H. now rewrite append_nil_r in H.
Qed.

Lemma includes_true (p s : string) : includes p s = true <-> occurs p s.
Proof.
  unfold includes, indexOf. split.
  - destruct (split_at_first p s) as [[b a]|] eqn:Hs; [| discriminate].
    intros _. exists b, a. now apply split_at_first_sound.
  - intros H. apply split_at_first_complete in H as (b & a & ->). reflexivity.
Qed.

Lemma includes_false (p s : string) : includes p s = false <-> ~ occurs p s.
Proof.
  rewrite <- includes_true. destruct (includes p s); split; intros H;
    congruence.
Qed.

(** A replacement text without [$] is inserted as it is. *)
Lemma get_substitution_plain (m b a r : string) :
  free_of "$" r = true -> get_substitution m b a r = r.
Proof.
  induction r as [|c r IH]; simpl; [reflexivity |].
  destruct (Ascii.eqb c "$") eqn:E; simpl; [discriminate |].
  intros H. apply Ascii.eqb_neq in E.
  destruct c as [[] [] [] [] [] [] [] []]; try (now rewrite IH);
    exfalso; now apply E.
Qed.

Lemma free_of_app (c : ascii) (s t : string) :
  free_of c (s +:+ t) = free_of c s && free_of c t.
Proof.
  induction s as [|d s IH]; simpl; [reflexivity |].
  rewrite IH. now rewrite andb_assoc.
Qed.

(** [replace] rewrites the first occurrence. *)
Lemma replace_first (p r before after : string) :
  indexOf p (before +:+ p +:+ after) = Some (String.length before) ->
  free_of "$" r = true ->
  replace p r (before +:+ p +:+ after) = before +:+ r +:+ after.
Proof.
  intros H Hr. unfold replace. rewrite (split_at_first_at _ _ _ H).
  now rewrite get_substitution_plain.
Qed.

Lemma replace_absent (p r s : string) : ~ occurs p s -> replace p r s = s.
Proof.
  intros H. unfold replace. apply split_at_first_None in H. now rewrite H.
Qed.

(** Removing a prefix. *)
Lemma replace_prefix (p t : string) : replace p "" (p +:+ t) = t.
Proof. unfold replace. now rewrite split_at_first_prefix. Qed.

Lemma split_nonempty (c : ascii) (s : string) : split c s <> [].
Proof.
  induction s as [|a s IH]; simpl; [discriminate |].
  destruct (Ascii.eqb a c); [discriminate |].
  destruct (split c s); [contradiction | discriminate].
Qed.

Lemma split_one (c : ascii) (s a : string) :
  split c s = [a] -> s = a /\ free_of c a = true.
Proof.
  revert a. induction s as [|x s IH]; intros a; simpl.
  - now intros [= <-].
  - destruct (Ascii.eqb x c) eqn:E.
    + intros [= <- H]. now apply split_nonempty in H.
    + destruct (split c s) as [|h t] eqn:Hs; [now apply split_nonempty in Hs |].
      intros [= <- ->]. destruct (IH h eq_refl) as [-> Hfree].
      simpl. now rewrite E, Hfree.
Qed.

(** A string that splits in two is its two fields around one separator. *)
Lemma split_two (c : ascii) (s a b : string) :
  split c s = [a; b] ->
  s = a +:+ String c b /\ free_of c a = true /\ free_of c b = true.
Proof.
  revert a. induction s as [|x s IH]; intros a; simpl; [discriminate |].
  destruct (Ascii.eqb x c) eqn:E.
  - apply Ascii.eqb_eq in E as ->. intros [= <- H].
    destruct (split_one _ _ _ H) as [-> Hfree]. now repeat split.
  - destruct (split c s) as [|h t] eqn:Hs; [now apply split_nonempty in Hs |].
    intros [= <- ->]. destruct (IH h eq_refl) as (-> & Ha & Hb).
    simpl. now rewrite E, Ha, Hb.
Qed.

Lemma free_of_separator (c : ascii) (a b : string) :
  free_of c (a +:+ String c b) = false.
Proof.
  induction a as [|x a IH]; simpl.
  - now rewrite Ascii.eqb_refl.
  - rewrite IH. apply andb_false_r.
Qed.

(** Around the only separator, the two fields are determined. *)
Lemma fields_unique (c : ascii) (n p a b : string) :
  free_of c n = true -> free_of c p = true ->
  n +:+ String c p = a +:+ String c b -> n = a /\ p = b.
Proof.
  revert a. induction n as [|x n IH]; intros [|y a] Hn Hp; simpl in *.
  - now intros [= ->].
  - intros [= <- ->]. now rewrite free_of_separator in Hp.
  - intros [= -> _]. now rewrite Ascii.eqb_refl in Hn.
  - intros [= <- H]. apply andb_true_iff in Hn as [_ Hn].
    destruct (IH a Hn Hp H) as [-> ->]. now split.
Qed.

End JsStringFacts.

(** ** Content hashes *)

Module AssetsFacts.
Import JsString JsStringFacts Assets.

Local Arguments String.append : simpl nomatch.

Lemma get_app (pre : string) (c : ascii) (post : string) :
  String.get (String.length pre) (pre +:+ String c post) = Some c.
Proof. induction pre as [|d pre IH]; simpl; [reflexivity | exact IH]. Qed.

Lemma ends_with_app (pre p : string) : ends_with p (pre +:+ p) = true.
Proof.
  unfold ends_with. rewrite length_append.
  replace (String.length pre + String.length p - String.length p)%nat
    with (String.length pre) by lia.
  rewrite drop_chars_app, String.eqb_refl.
  rewrite andb_true_r. apply Nat.leb_le. lia.
Qed.

(** A string splits at any position within it. *)
Lemma drop_chars_split (n : nat) (s : string) :
  (n <= String.length s)%nat ->
  exists pre, s = pre +:+ drop_chars n s /\ String.length pre = n.
Proof.
  revert s. induction n as [|n IH]; intros s Hn.
  - exists "". now destruct s.
  - destruct s as [|c s]; simpl in *; [lia |].
    destruct (IH s ltac:(lia)) as (pre & Heq & Hlen).
    exists (String c pre). simpl. split; [now f_equal | now f_equal].
Qed.

Lemma last_char (s : string) :
  s <> "" -> exists pre c, s = pre +:+ String c "".
Proof.
  induction s as [|c s IH]; [congruence | intros _].
  destruct s as [|d s].
  - now exists "", c.
  - destruct IH as (pre & e & Heq); [discriminate |].
    exists (String c pre), e. simpl. now rewrite <- Heq.
Qed.

(** The entries the filter keeps: those that end with one character that
    is not a line terminator followed by the extension. *)
Lemma matches_ext_spec (ext d : string) :
  matches_ext ext d = true <->
  exists pre c, d = pre +:+ String c ext /\ line_terminator c = false.
Proof.
  unfold matches_ext. split.
  - intros [Hend Hc]%andb_true_iff.
    unfold ends_with in Hend. apply andb_true_iff in Hend as [Hle Heq].
    apply Nat.leb_le in Hle. apply String.eqb_eq in Heq.
    destruct (String.length d - String.length ext)%nat as [|m] eqn:Hn;
      [discriminate |].
    destruct (drop_chars_split (S m) d ltac:(lia)) as (pre & Hd & Hlen).
    rewrite Heq in Hd.
    destruct (last_char pre) as (pre' & c & ->).
    { intros ->. discriminate. }
    rewrite length_append in Hlen. simpl in Hlen.
    assert (String.length pre' = m) as <- by lia.
    rewrite append_assoc in Hd. simpl in Hd. rewrite Hd, get_app in Hc.
    exists pre', c. split; [exact Hd | now destruct (line_terminator c)].
  - intros (pre & c & -> & Hc).
    replace (pre +:+ String c ext) with ((pre +:+ String c "") +:+ ext)
      by now rewrite append_assoc.
    rewrite ends_with_app. rewrite append_assoc. simpl.
    rewrite length_append. simpl.
    replace (String.length pre + S (String.length ext) - String.length ext)%nat
      with (S (String.length pre)) by lia.
    now rewrite get_app, Hc.
Qed.

Lemma matches_ext_dot (ext pre : string) :
  matches_ext ext (pre +:+ "." +:+ ext) = true.
Proof. apply matches_ext_spec. now exists pre, "."%char. Qed.

(** On a list of file names the filter is [List.filter]. *)
Lemma filter_ext_strings (ext : string) (names : list string) :
  filter_ext ext (map JStr names)
  = Ok (map JStr (List.filter (matches_ext ext) names)).
Proof.
  induction names as [|d names IH]; simpl; [reflexivity |].
  rewrite IH. simpl. now destruct (matches_ext ext d).
Qed.

Lemma filter_skips (ext : string) (skipped : list string) (f : string)
    (rest : list string) :
  Forall (fun d => matches_ext ext d = false) skipped ->
  matches_ext ext f = true ->
  List.filter (matches_ext ext) (skipped ++ f :: rest)
  = f :: List.filter (matches_ext ext) rest.
Proof.
  intros Hs Hf. induction Hs as [|d skipped Hd _ IH]; simpl.
  - now rewrite Hf.
  - now rewrite Hd.
Qed.

(** Stripping the extension, then the chunk name. *)
Lemma strip_name (key ext hash : string) :
  indexOf ("." +:+ ext) (key +:+ "." +:+ hash +:+ "." +:+ ext)
    = Some (String.length (key +:+ "." +:+ hash)) ->
  replace (key +:+ ".") ""
    (replace ("." +:+ ext) "" (key +:+ "." +:+ hash +:+ "." +:+ ext)) = hash.
Proof.
  intros H.
  assert (key +:+ "." +:+ hash +:+ "." +:+ ext
          = (key +:+ "." +:+ hash) +:+ ("." +:+ ext) +:+ "") as E.
  { now rewrite !append_assoc, append_nil_r. }
  rewrite E in H |- *. rewrite (replace_first _ "" _ _ H eq_refl).
  change ("" +:+ "") with "". rewrite append_nil_r, <- append_assoc.
  apply replace_prefix.
Qed.

(** A name that does not end with [ext] is not kept by the filter. *)
Lemma not_suffix_not_kept (ext d : string) :
  (forall pre, d <> pre +:+ ext) -> matches_ext ext d = false.
Proof.
  intros Hno. destruct (matches_ext ext d) eqn:E; [| reflexivity].
  apply matches_ext_spec in E as (pre & c & -> & _).
  exfalso. apply (Hno (pre +:+ String c "")).
  now rewrite append_assoc.
Qed.

Lemma ends_with_false (ext d : string) :
  ends_with ext d = false -> forall pre, d <> pre +:+ ext.
Proof.
  intros H pre ->. now rewrite ends_with_app in H.
Qed.

(** C6.  [getHash] returns the part of the file name between the chunk
    name and the extension, [key.hash.ext] giving [hash], provided the
    first occurrence of [.ext] in the name is its final suffix: both when
    the chunk entry is that file name and when it is a list of names in
    which that name comes after names that do not end with the extension
    and before any other names, so that it is the first match.  With
    [bundle.abc123.js], alone or followed by [bundle.abc123.js.map], the
    result is [abc123]. *)
Theorem getHash_extracts_hash (key ext hash : string) (obj chunks : jsval) :
  Js.get obj "assetsByChunkName" = Ok chunks ->
  indexOf ("." +:+ ext) (key +:+ "." +:+ hash +:+ "." +:+ ext)
    = Some (String.length (key +:+ "." +:+ hash)) ->
  (Js.get chunks key = Ok (JStr (key +:+ "." +:+ hash +:+ "." +:+ ext)) ->
   getHash key ext obj = Ok hash)
  /\ (forall skipped rest : list string,
        Js.get chunks key
          = Ok (JArr (map JStr (skipped ++ (key +:+ "." +:+ hash +:+ "." +:+ ext) :: rest))) ->
        Forall (fun d => forall pre, d <> pre +:+ ext) skipped ->
        getHash key ext obj = Ok hash).
Proof.
  intros Hobj Hfirst. split.
  - intros Hentry. unfold getHash. rewrite Hobj.
    cbn -[String.append replace]. rewrite Hentry.
    cbn -[String.append replace]. now rewrite strip_name.
  - intros skipped rest Hentry Hskip. unfold getHash. rewrite Hobj.
    cbn -[String.append replace]. rewrite Hentry.
    cbn -[String.append replace]. rewrite filter_ext_strings.
    rewrite filter_skips.
    + cbn -[String.append replace]. now rewrite strip_name.
    + eapply Forall_impl; [exact Hskip |].
      intros d Hd. now apply not_suffix_not_kept.
    + replace (key +:+ "." +:+ hash +:+ "." +:+ ext)
        with ((key +:+ "." +:+ hash) +:+ "." +:+ ext)
        by now rewrite !append_assoc.
      apply matches_ext_dot.
Qed.

Lemma getHash_extracts_hash_witness :
  getHash "bundle" "js" Scenario.manifest_single = Ok "abc123"
  /\ getHash "bundle" "js" Scenario.manifest_list = Ok "abc123"
  /\ getHash "bundle" "js" Scenario.manifest_map_first = Ok "abc123".
Proof.
  split; [| split].
  - apply (proj1 (getHash_extracts_hash "bundle" "js" "abc123" Scenario.manifest_single
                    _ eq_refl eq_refl)).
    reflexivity.
  - apply (proj2 (getHash_extracts_hash "bundle" "js" "abc123" Scenario.manifest_list
                    _ eq_refl eq_refl) [] ["bundle.abc123.js.map"]).
    + reflexivity.
    + constructor.
  - apply (proj2 (getHash_extracts_hash "bundle" "js" "abc123"
                    Scenario.manifest_map_first _ eq_refl eq_refl)
             ["bundle.abc123.js.map"; "bundle.css"] ["bundle.ffff00.js"]).
    + reflexivity.
    + repeat constructor; now apply ends_with_false.
Defined.

(** When the proviso holds: names without dots around a hash that does
    not begin with the extension (a hexadecimal hash, with [js] or [css]). *)
Lemma starts_with_blocked (p hash r : string) :
  free_of "." p = true ->
  starts_with p hash = false ->
  starts_with p (hash +:+ String "." r) = false.
Proof.
  revert hash. induction p as [|e p IH]; intros hash Hp Hh; [discriminate |].
  simpl in Hp. apply andb_true_iff in Hp as [He Hp].
  destruct hash as [|h hash]; simpl in *.
  - now apply negb_true_iff in He as ->.
  - destruct (Ascii.eqb e h); [now apply IH | reflexivity].
Qed.

Lemma split_at_first_skip (ext a t : string) :
  free_of "." a = true ->
  split_at_first (String "." ext) (a +:+ t)
  = match split_at_first (String "." ext) t with
    | Some (before, after) => Some (a +:+ before, after)
    | None => None
    end.
Proof.
  intros Ha. induction a as [|x a IH].
  - change ("" +:+ t) with t.
    now destruct (split_at_first (String "." ext) t) as [[b r]|].
  - simpl in Ha. apply andb_true_iff in Ha as [Hx Ha].
    change (String x a +:+ t) with (String x (a +:+ t)).
    rewrite split_at_first_unfold.
    assert (starts_with (String "." ext) (String x (a +:+ t)) = false) as ->.
    { cbn [starts_with]. rewrite Ascii.eqb_sym.
      apply negb_true_iff in Hx. now rewrite Hx. }
    rewrite (IH Ha).
    now destruct (split_at_first (String "." ext) t) as [[b r]|].
Qed.

Lemma dot_ext_first_at_end (key ext hash : string) :
  free_of "." key = true -> free_of "." hash = true -> free_of "." ext = true ->
  starts_with ext hash = false ->
  indexOf ("." +:+ ext) (key +:+ "." +:+ hash +:+ "." +:+ ext)
  = Some (String.length (key +:+ "." +:+ hash)).
Proof.
  intros Hkey Hhash Hext Hstart. unfold indexOf.
  change ("." +:+ ext) with (String "." ext).
  rewrite (split_at_first_skip ext key _ Hkey).
  change ("." +:+ hash +:+ String "." ext)
    with (String "." (hash +:+ String "." ext)).
  rewrite split_at_first_unfold.
  cbn [starts_with]. rewrite Ascii.eqb_refl.
  rewrite (starts_with_blocked ext hash ext Hext Hstart).
  rewrite (split_at_first_skip ext hash _ Hhash).
  rewrite split_at_first_self.
  now rewrite append_nil_r.
Qed.

(** X20.  [getHash] on a dot-free chunk name and hash returns the hash. *)
Corollary getHash_dot_free (key ext hash : string) (obj chunks : jsval) :
  free_of "." key = true -> free_of "." hash = true -> free_of "." ext = true ->
  starts_with ext hash = false ->
  Js.get obj "assetsByChunkName" = Ok chunks ->
  Js.get chunks key = Ok (JStr (key +:+ "." +:+ hash +:+ "." +:+ ext)) ->
  getHash key ext obj = Ok hash.
Proof.
  intros Hkey Hhash Hext Hstart Hobj Hentry. unfold getHash. rewrite Hobj.
  cbn -[String.append replace]. rewrite Hentry.
  cbn -[String.append replace]. rewrite strip_name; [reflexivity |].
  now apply dot_ext_first_at_end.
Qed.

(** *** The hash table *)

Section BootstrapFacts.

Variable readManifest : string -> outcome jsval.

Local Abbreviation entry_of := (entry_of readManifest).
Local Abbreviation warning_of := (warning_of readManifest).

Lemma srcHashes_entry_run (k : string) (console : list string) :
  srcHashes_entry readManifest k console
  = (Ok (entry_of k), console ++ from_option (fun w => [w]) [] (warning_of k)).
Proof.
  unfold srcHashes_entry, try_catch, and_then, lift, pure, console_warn,
    Assets.entry_of, Assets.warning_of.
  destruct (load_hashes readManifest k); simpl; [| reflexivity].
  now rewrite app_nil_r.
Qed.

(** The callback never throws, so the [map] runs over every locale. *)
Lemma map_startup_run (locales : list string) (console : list string) :
  map_startup (srcHashes_entry readManifest) locales console
  = (Ok (entry_of <$> locales), console ++ omap warning_of locales).
Proof.
  revert console. induction locales as [|k locales IH]; intros console.
  - simpl. unfold pure. now rewrite app_nil_r.
  - simpl. unfold and_then at 1. rewrite srcHashes_entry_run.
    unfold and_then at 1. rewrite IH. unfold pure.
    f_equal. rewrite <- app_assoc. f_equal.
    now destruct (warning_of k).
Qed.

Lemma fold_insert_absent (entries : list (string * hashes))
    (acc : gmap string hashes) (k : string) :
  k ∉ entries.*1 ->
  fold_left (fun table entry => <[entry.1 := entry.2]> table) entries acc !! k
  = acc !! k.
Proof.
  revert acc. induction entries as [|[k' h'] entries IH]; intros acc Hk;
    simpl; [reflexivity |].
  rewrite fmap_cons, not_elem_of_cons in Hk. destruct Hk as [Hne Hk].
  rewrite IH by assumption. simpl in Hne. now rewrite lookup_insert_ne.
Qed.

Lemma fold_insert_present (entries : list (string * hashes))
    (acc : gmap string hashes) (k : string) (h : hashes) :
  (forall h', (k, h') ∈ entries -> h' = h) ->
  (k, h) ∈ entries ->
  fold_left (fun table entry => <[entry.1 := entry.2]> table) entries acc !! k
  = Some h.
Proof.
  revert acc. induction entries as [|[k' h'] entries IH]; intros acc Hfun Hin.
  - now apply elem_of_nil in Hin.
  - simpl. destruct (decide (k ∈ entries.*1)) as [Hk | Hk].
    + apply list_elem_of_fmap in Hk as ([k0 h0] & -> & Hin0). simpl in *.
      assert (h0 = h) as -> by (apply Hfun; now right).
      apply IH; [| exact Hin0].
      intros h1 H1. apply Hfun. now right.
    + rewrite fold_insert_absent by assumption.
      apply elem_of_cons in Hin as [[= <- <-] | Hin].
      * apply lookup_insert_eq.
      * exfalso. apply Hk. apply list_elem_of_fmap. now exists (k, h).
Qed.

Lemma elem_of_entries (locales : list string) (k : string) (h : hashes) :
  (k, h) ∈ omap id (entry_of <$> locales)
  <-> k ∈ locales /\ load_hashes readManifest k = Ok h.
Proof.
  rewrite list_elem_of_omap. split.
  - intros (o & Ho & Hid). simpl in Hid. subst o.
    apply list_elem_of_fmap in Ho as (k0 & Hk0 & Hin).
    unfold Assets.entry_of in Hk0.
    destruct (load_hashes readManifest k0) eqn:E; [| discriminate].
    injection Hk0 as -> ->. now split.
  - intros [Hin Hload]. exists (Some (k, h)). split; [| reflexivity].
    apply list_elem_of_fmap. exists k. split; [| exact Hin].
    unfold Assets.entry_of. now rewrite Hload.
Qed.

(** The table has a record for exactly the locales whose manifest loads. *)
Lemma fromEntries_lookup (locales : list string) (k : string) :
  fromEntries (omap id (entry_of <$> locales)) !! k
  = if decide (k ∈ locales)
    then match load_hashes readManifest k with
         | Ok h => Some h
         | Throw _ => None
         end
    else None.
Proof.
  unfold fromEntries. destruct (decide (k ∈ locales)) as [Hin | Hout].
  - destruct (load_hashes readManifest k) as [h | e] eqn:Hload.
    + apply fold_insert_present.
      * intros h' H'. apply elem_of_entries in H' as [_ H']. congruence.
      * apply elem_of_entries. now split.
    + rewrite fold_insert_absent; [apply lookup_empty |].
      intros ([k0 h0] & -> & H0)%list_elem_of_fmap.
      apply elem_of_entries in H0 as [_ H0]. simpl in Hload. congruence.
  - rewrite fold_insert_absent; [apply lookup_empty |].
    intros ([k0 h0] & -> & H0)%list_elem_of_fmap.
    apply elem_of_entries in H0 as [H0 _]. now apply Hout.
Qed.

Lemma srcHashes_build_run (locales : list string) (console : list string) :
  srcHashes_build readManifest locales console
  = (Ok (fromEntries (omap id (entry_of <$> locales))),
     console ++ omap warning_of locales).
Proof.
  unfold srcHashes_build, and_then. now rewrite map_startup_run.
Qed.

(** A locale whose manifest does not load has no record. *)
Lemma srcHashes_omits (locales : list string) (console : list string)
    (k : string) (e : js_error) :
  load_hashes readManifest k = Throw e ->
  exists table log,
    srcHashes_build readManifest locales console = (Ok table, log)
    /\ table !! k = None.
Proof.
  intros Hload. eexists _, _. split; [apply srcHashes_build_run |].
  rewrite fromEntries_lookup, Hload. now destruct (decide (k ∈ locales)).
Qed.

End BootstrapFacts.

End AssetsFacts.

(** ** Translation lookup *)

Module TranslationFacts.
Import Translation.

Section Facts.

Variable vsprintf : jsval -> list jsval -> outcome jsval.
Variable localeConfigs : gmap string jsval.

Local Abbreviation translateWithLocale := (translateWithLocale vsprintf localeConfigs).
Local Abbreviation lookup_path := (lookup_path localeConfigs).
Local Abbreviation falls_back := (falls_back localeConfigs).

(** The two branches of the function, as equations. *)
Lemma translate_unfold (locale keyStr : string) (formatArgs : list jsval) :
  translateWithLocale locale keyStr formatArgs
  = if falls_back locale keyStr
    then translateWithLocale "en" keyStr []
    else if Js.truthy (lookup_path locale keyStr)
         then vsprintf (lookup_path locale keyStr) formatArgs
         else Ok (lookup_path locale keyStr).
Proof.
  rewrite translateWithLocale_equation_1.
  unfold translateWithLocale_unfold_clause_1.
  generalize (inspect (Translation.falls_back localeConfigs locale keyStr)).
  intros [b Hb]. rewrite Hb. now destruct b.
Qed.

Lemma falls_back_en (keyStr : string) : falls_back "en" keyStr = false.
Proof. reflexivity. Qed.

(** In the default locale there is no retry. *)
Lemma translate_en (keyStr : string) (formatArgs : list jsval) :
  translateWithLocale "en" keyStr formatArgs
  = if Js.truthy (lookup_path "en" keyStr)
    then vsprintf (lookup_path "en" keyStr) formatArgs
    else Ok (lookup_path "en" keyStr).
Proof. now rewrite translate_unfold, falls_back_en. Qed.

(** A key found in the locale is formatted with the arguments. *)
Lemma translate_found (locale keyStr : string) (formatArgs : list jsval) :
  Js.truthy (lookup_path locale keyStr) = true ->
  translateWithLocale locale keyStr formatArgs
  = vsprintf (lookup_path locale keyStr) formatArgs.
Proof.
  intros H. rewrite translate_unfold. unfold Translation.falls_back.
  rewrite H. simpl. now rewrite andb_false_r.
Qed.

(** A key missing in a locale other than [en] is looked up in [en], and
    the template found there is formatted with no argument at all. *)
Lemma translate_fallback (locale keyStr : string) (formatArgs : list jsval) :
  locale <> "en" ->
  Js.truthy (lookup_path locale keyStr) = false ->
  translateWithLocale locale keyStr formatArgs
  = if Js.truthy (lookup_path "en" keyStr)
    then vsprintf (lookup_path "en" keyStr) []
    else Ok (lookup_path "en" keyStr).
Proof.
  intros Hne H. rewrite translate_unfold. unfold Translation.falls_back.
  apply String.eqb_neq in Hne. rewrite Hne, H. simpl.
  apply translate_en.
Qed.

(** X4.  A key missing everywhere: the falsy value itself comes back, and no
    exception is thrown. *)
Lemma translate_missing (locale keyStr : string) (formatArgs : list jsval) :
  Js.truthy (lookup_path locale keyStr) = false ->
  Js.truthy (lookup_path "en" keyStr) = false ->
  translateWithLocale locale keyStr formatArgs = Ok (lookup_path "en" keyStr).
Proof.
  intros H Hen. destruct (String.eqb_spec locale "en") as [-> | Hne].
  - now rewrite translate_en, Hen.
  - now rewrite translate_fallback, Hen.
Qed.

End Facts.

(** C2, at a failing input.  The French tree has no [greeting]; the English
    one has the template [Hello %s].  Asked for [greeting] with the argument
    [World], the French lookup formats the English template with an empty
    argument list, where the English lookup formats it with [World]: the
    retry of line 75 does not forward the format arguments. *)
Theorem translate_fallback_drops_arguments
    (vsprintf : jsval -> list jsval -> outcome jsval) :
  translateWithLocale vsprintf (Server.localeConfigs Scenario.site_here)
    "fr" "greeting" [JStr "World"]
  = vsprintf (JStr "Hello %s") []
  /\ translateWithLocale vsprintf (Server.localeConfigs Scenario.site_here)
       "en" "greeting" [JStr "World"]
     = vsprintf (JStr "Hello %s") [JStr "World"].
Proof.
  split.
  - rewrite translate_fallback; [reflexivity | discriminate | reflexivity].
  - rewrite translate_en. reflexivity.
Qed.

End TranslationFacts.

(** ** The application *)

Module ServerFacts.
Import JsString JsStringFacts Server.

(** *** Start-up *)

(** C7.  Whatever the manifests are, building the hash table does not throw:
    it yields a table and appends one warning per failing locale to the
    console.  The table has the record of every configured locale whose
    manifest loads, and no record for a locale whose manifest (or whose hash
    extraction) fails nor for anything else.  The server that listens is the
    application closed over that one table. *)
Theorem bootstrap_survives_manifest_failures
    (C : collaborators) (env : environment) (cfg : site) (console : list string) :
  exists (table : gmap string Assets.hashes) (warnings : list string),
    Assets.srcHashes_build (readManifest C) (locales cfg) console
      = (Ok table, console ++ warnings)
    /\ main C env cfg console = (Ok (app C env cfg table), console ++ warnings)
    /\ warnings = omap (Assets.warning_of (readManifest C)) (locales cfg)
    /\ (forall k h, k ∈ locales cfg ->
          Assets.load_hashes (readManifest C) k = Ok h -> table !! k = Some h)
    /\ (forall k e, k ∈ locales cfg ->
          Assets.load_hashes (readManifest C) k = Throw e ->
          table !! k = None /\ Assets.warning k e ∈ warnings)
    /\ (forall k, k ∉ locales cfg -> table !! k = None).
Proof.
  eexists _, _. split; [apply AssetsFacts.srcHashes_build_run |].
  split.
  { unfold main, Assets.and_then. now rewrite AssetsFacts.srcHashes_build_run. }
  split; [reflexivity |].
  split; [| split].
  - intros k h Hin Hload. rewrite AssetsFacts.fromEntries_lookup, Hload.
    now rewrite decide_True.
  - intros k e Hin Hload. split.
    + rewrite AssetsFacts.fromEntries_lookup, Hload.
      now destruct (decide (k ∈ locales cfg)).
    + apply list_elem_of_omap. exists k. split; [exact Hin |].
      unfold Assets.warning_of. now rewrite Hload.
  - intros k Hout. rewrite AssetsFacts.fromEntries_lookup.
    now rewrite decide_False.
Qed.

(** The table of the deployment [Scenario]: [fr] is left out. *)
Lemma table_here_built :
  Assets.srcHashes_build Scenario.manifests ["en"; "de"; "fr"] []
  = (Ok Scenario.table_here,
     ["Warning: couldn't load manifest for locale fr: Error: ENOENT: no such file or directory"]).
Proof. vm_compute. reflexivity. Qed.

(** *** Source maps *)

(** The gate answers 401 exactly to the listed addresses. *)
Lemma source_maps_unauthorized (req : request) :
  route_star_suffix "/dist/" ".map" (path_of (originalUrl req)) = true ->
  source_maps req
  = match headers req !! "x-forwarded-for" with
    | Some ip =>
        if bool_decide (ip ∈ sentry_addresses)
        then Some (Json 401 (JObj [("error", JStr "unauthorized")]))
        else None
    | None => None
    end.
Proof. intros H. unfold source_maps. now rewrite H. Qed.

(** C1, at two failing inputs.  A request for a source map from
    35.184.238.160, one of the four listed addresses, is answered 401; the
    same request from 203.0.113.9, which is not listed, falls through and
    the file is served. *)
Theorem source_maps_gate_is_inverted :
  let listed := Scenario.with_header "x-forwarded-for" "35.184.238.160"
                  (Scenario.get "www.electricitymap.org" "sentry"
                     "/dist/bundle.abc123.js.map" []) in
  let unlisted := Scenario.with_header "x-forwarded-for" "203.0.113.9"
                    (Scenario.get "www.electricitymap.org" "curl"
                       "/dist/bundle.abc123.js.map" []) in
  ("35.184.238.160" ∈ sentry_addresses)
  /\ source_maps listed = Some (Json 401 (JObj [("error", JStr "unauthorized")]))
  /\ app Scenario.collaborators_here Scenario.open_env Scenario.site_here
       Scenario.table_here listed
     = Json 401 (JObj [("error", JStr "unauthorized")])
  /\ ("203.0.113.9" ∉ sentry_addresses)
  /\ source_maps unlisted = None
  /\ app Scenario.collaborators_here Scenario.open_env Scenario.site_here
       Scenario.table_here unlisted
     = Static "/dist/bundle.abc123.js.map".
Proof.
  cbv zeta. split; [| split; [| split; [| split; [| split]]]];
    try (vm_compute; reflexivity).
  - unfold sentry_addresses. repeat constructor.
  - unfold sentry_addresses. intros H.
    repeat (apply elem_of_cons in H as [H | H]; [discriminate |]).
    now apply elem_of_nil in H.
Qed.

(** *** Alternate URLs *)

Section AlternateUrls.

Variable req : request.

Local Abbreviation fullUrl_of := ("https://www.electricitymap.org" +:+ originalUrl req).

(** X19.  The URL mentions [lang=v] first as its [lang] parameter: that text
    is rewritten. *)
Lemma alternateUrl_replaces (l v before after : string) :
  fullUrl_of = before +:+ ("lang=" +:+ v) +:+ after ->
  indexOf ("lang=" +:+ v) (before +:+ ("lang=" +:+ v) +:+ after)
    = Some (String.length before) ->
  query_get "lang" (query req) = Some (QStr v) ->
  free_of "$" l = true ->
  alternateUrl req l = before +:+ ("lang=" +:+ l) +:+ after.
Proof.
  intros Hurl Hfirst Hq Hl. unfold alternateUrl.
  assert (includes "lang" fullUrl_of = true) as ->.
  { apply includes_true. exists before, (("=" +:+ v) +:+ after).
    rewrite Hurl. now rewrite !append_assoc. }
  rewrite Hq. cbn [query_param_to_string qvalue_to_string].
  rewrite Hurl. apply (replace_first _ _ _ _ Hfirst).
  rewrite free_of_app, Hl. reflexivity.
Qed.

(** The URL does not contain [lang] and the query has parameters. *)
Lemma alternateUrl_appends (l : string) :
  includes "lang" fullUrl_of = false ->
  query req <> [] ->
  alternateUrl req l = fullUrl_of +:+ "&lang=" +:+ l.
Proof.
  intros Hno Hq. unfold alternateUrl. rewrite Hno.
  destruct (query req); [congruence | reflexivity].
Qed.

(** The URL contains neither [lang] nor a question mark. *)
Lemma alternateUrl_starts_query (l : string) :
  includes "lang" fullUrl_of = false ->
  includes "?" fullUrl_of = false ->
  query req = [] ->
  alternateUrl req l = fullUrl_of +:+ "?lang=" +:+ l.
Proof.
  intros Hno Hq Hempty. unfold alternateUrl. rewrite Hno, Hempty. simpl.
  rewrite replace_absent; [reflexivity |]. now apply includes_false.
Qed.

(** The URL contains [lang], but not as the text [lang=<req.query.lang>]:
    it comes back unchanged, for every locale. *)
Lemma alternateUrl_unchanged (l : string) :
  includes "lang" fullUrl_of = true ->
  includes ("lang=" +:+ query_param_to_string (query_get "lang" (query req)))
    fullUrl_of = false ->
  alternateUrl req l = fullUrl_of.
Proof.
  intros Hyes Hno. unfold alternateUrl. rewrite Hyes.
  apply replace_absent. now apply includes_false.
Qed.

End AlternateUrls.

(** The three URLs of the specification. *)
Lemma alternateUrl_examples :
  alternateUrl (Scenario.get "www.electricitymap.org" "Mozilla" "/?foo=1"
                  [("foo", QStr "1")]) "de"
  = "https://www.electricitymap.org/?foo=1&lang=de"
  /\ alternateUrl (Scenario.get "www.electricitymap.org" "Mozilla" "/?lang=en"
                     [("lang", QStr "en")]) "de"
     = "https://www.electricitymap.org/?lang=de"
  /\ alternateUrl (Scenario.get "www.electricitymap.org" "Mozilla" "/" []) "de"
     = "https://www.electricitymap.org/?lang=de".
Proof. repeat split; reflexivity. Qed.

(** C3, at a failing input.  For [/?language=fr], a request without a
    [lang] parameter, the alternate URL of every locale is the current URL
    itself: the letters [lang] occur in it, so nothing is appended, and
    [lang=undefined] does not, so nothing is replaced. *)
Theorem alternateUrl_misses_lang_in_other_text (l : string) :
  let req := Scenario.get "www.electricitymap.org" "Mozilla" "/?language=fr"
               [("language", QStr "fr")] in
  query_get "lang" (query req) = None
  /\ alternateUrl req l = "https://www.electricitymap.org/?language=fr"
  /\ alternateUrl req l <> "https://www.electricitymap.org/?language=fr&lang=" +:+ l.
Proof.
  cbv zeta. split; [reflexivity |].
  assert (alternateUrl
            (Scenario.get "www.electricitymap.org" "Mozilla" "/?language=fr"
               [("language", QStr "fr")]) l
          = "https://www.electricitymap.org/?language=fr") as ->.
  { apply alternateUrl_unchanged; reflexivity. }
  split; [reflexivity |].
  intros H. apply (f_equal String.length) in H.
  rewrite length_append in H. simpl in H. lia.
Qed.

(** *** The page handler *)

Section Page.

Variable C : collaborators.
Variable env : environment.
Variable cfg : site.
Variable srcHashes : gmap string Assets.hashes.

Local Abbreviation page := (page C env cfg srcHashes).
Local Abbreviation render_page := (render_page C cfg srcHashes).
Local Abbreviation gate_and_render := (gate_and_render C env cfg srcHashes).

(** A request passes the first step when it has a [Host] header and the
    condition of line 162 is false, and the second when [fb_locale], if
    present, is a string. *)
Lemma page_reaches_gate (req : request) (host locale : string) :
  headers req !! "host" = Some host ->
  redirects_to_canonical host req = false ->
  resolve_locale C req = Ok locale ->
  page req = gate_and_render locale req.
Proof.
  intros Hhost Hredirect Hlocale. unfold Server.page.
  now rewrite Hhost, Hredirect, Hlocale.
Qed.

Lemma page_redirects (req : request) (host : string) :
  headers req !! "host" = Some host ->
  redirects_to_canonical host req = true ->
  page req = Redirect 301 ("https://www.electricitymap.org" +:+ originalUrl req).
Proof.
  intros Hhost Hredirect. unfold Server.page. now rewrite Hhost, Hredirect.
Qed.

(** The render step, by cases on the table. *)
Lemma render_page_absent (cookies : list (string * option string))
    (locale : string) (req : request) :
  srcHashes !! locale = None ->
  render_page cookies locale req
  = Uncaught cookies
      (TypeError "Cannot read properties of undefined (reading 'BUNDLE_HASH')").
Proof. intros H. unfold Server.render_page. now rewrite H. Qed.

Lemma render_page_present (cookies : list (string * option string))
    (locale : string) (req : request) (h : Assets.hashes) :
  srcHashes !! locale = Some h ->
  exists model,
    render_page cookies locale req = Render cookies "pages/index" model
    /\ alternateUrls model = map (alternateUrl req) (locales cfg)
    /\ bundleHash model = Assets.BUNDLE_HASH h
    /\ Server.locale model = locale.
Proof.
  intros H. unfold Server.render_page. rewrite H. eexists. split; [reflexivity |].
  now repeat split.
Qed.

(** The render step never answers with a status of its own. *)
Lemma render_page_not_text (cookies : list (string * option string))
    (locale : string) (req : request) (status : nat)
    (hs : list (string * string)) (body : string) :
  render_page cookies locale req <> Text status hs body.
Proof.
  unfold Server.render_page. now destruct (srcHashes !! locale).
Qed.

Lemma render_page_not_redirect (cookies : list (string * option string))
    (locale : string) (req : request) (status : nat) (location : string) :
  render_page cookies locale req <> Redirect status location.
Proof.
  unfold Server.render_page. now destruct (srcHashes !! locale).
Qed.

(** For a well-formed list, the loop of lines 185-190 accepts exactly the
    requests that present one of the configured pairs. *)
Lemma authorized_spec (credentials : string) (req : request) :
  well_formed_pairs credentials ->
  authorized C credentials req = true <-> presents_configured_pair C credentials req.
Proof.
  intros Hwf. unfold authorized, presents_configured_pair. split.
  - destruct (auth C req) as [[name pass]|]; [| discriminate].
    intros (cred & Hin & Hm)%existsb_exists. apply list_elem_of_In in Hin.
    destruct (Hwf cred Hin) as (n & q & Hsplit).
    unfold credential_matches in Hm. rewrite Hsplit in Hm. simpl in Hm.
    apply andb_true_iff in Hm as [->%String.eqb_eq ->%String.eqb_eq].
    exists name, pass. split; [reflexivity |].
    destruct (split_two _ _ _ _ Hsplit) as (Heq & _ & _).
    rewrite Heq in Hin. exact Hin.
  - intros (name & pass & -> & Hin).
    apply existsb_exists. exists (name +:+ ":" +:+ pass).
    split; [now apply list_elem_of_In |].
    destruct (Hwf _ Hin) as (n & q & Hsplit).
    unfold credential_matches. rewrite Hsplit. simpl.
    destruct (split_two _ _ _ _ Hsplit) as (Heq & Hn & Hq).
    destruct (fields_unique ":" n q name pass Hn Hq (eq_sym Heq)) as [-> ->].
    now rewrite !String.eqb_refl.
Qed.

(** C4, amended.  With no credential list configured the handler never
    answers 401.  With a list of [name:pass] pairs configured, a request
    that reaches the gate (it has a [Host] header, is not answered by the
    canonical redirect, and its [fb_locale], if any, is a string) goes on to
    the render step with the token cookie attached when it presents one of
    the pairs, and is answered 401 with the [WWW-Authenticate] challenge and
    the body [Access denied] otherwise. *)
Theorem auth_gate (req : request) :
  (configured_credentials env = None ->
   forall hs body, page req <> Text 401 hs body)
  /\ (forall host locale credentials,
        headers req !! "host" = Some host ->
        redirects_to_canonical host req = false ->
        resolve_locale C req = Ok locale ->
        configured_credentials env = Some credentials ->
        well_formed_pairs credentials ->
        (presents_configured_pair C credentials req ->
         page req = render_page (token_cookie env) locale req
         /\ forall h, srcHashes !! locale = Some h ->
              exists model,
                page req = Render [("electricitymap-token", ELECTRICITYMAP_TOKEN env)]
                             "pages/index" model)
        /\ (~ presents_configured_pair C credentials req ->
            page req
            = Text 401 [("WWW-Authenticate", challenge)] "Access denied")).
Proof.
  split.
  - intros Hnone hs body. unfold Server.page.
    destruct (headers req !! "host") as [host|]; [| discriminate].
    destruct (redirects_to_canonical host req); [discriminate |].
    destruct (resolve_locale C req) as [locale|]; [| discriminate].
    unfold Server.gate_and_render. rewrite Hnone. apply render_page_not_text.
  - intros host locale credentials Hhost Hredirect Hlocale Hcreds Hwf.
    rewrite (page_reaches_gate _ _ _ Hhost Hredirect Hlocale).
    unfold Server.gate_and_render. rewrite Hcreds. split.
    + intros Hm%(authorized_spec _ _ Hwf). rewrite Hm. split; [reflexivity |].
      intros h Hh. destruct (render_page_present (token_cookie env) locale req h Hh)
        as (model & Hr & _). now exists model.
    + intros Hm. destruct (authorized C credentials req) eqn:E; [| reflexivity].
      exfalso. now apply Hm, (authorized_spec _ _ Hwf).
Qed.

(** The first step of the handler, in the handler's own tests. *)
Lemma page_on_alternate_host (req : request) (host : string) :
  headers req !! "host" = Some host ->
  isStaging host = false ->
  isNonWWW host || isTmrowCo host = true ->
  (isFacebookCrawler req = false ->
   page req = Redirect 301 ("https://www.electricitymap.org" +:+ originalUrl req))
  /\ (isFacebookCrawler req = true ->
      (forall status location, page req <> Redirect status location)
      /\ (forall locale, resolve_locale C req = Ok locale ->
            page req = gate_and_render locale req)
      /\ (forall locale h,
            resolve_locale C req = Ok locale ->
            srcHashes !! locale = Some h ->
            (forall credentials, configured_credentials env = Some credentials ->
               authorized C credentials req = true) ->
            exists cookies model,
              page req = Render cookies "pages/index" model)).
Proof.
  intros Hhost Hstaging Halt. split.
  - intros Hfb. apply (page_redirects _ _ Hhost).
    unfold redirects_to_canonical. now rewrite Hstaging, Halt, Hfb.
  - intros Hfb.
    assert (redirects_to_canonical host req = false) as Hredirect.
    { unfold redirects_to_canonical. rewrite Hfb. apply andb_false_r. }
    split; [| split].
    + intros status location. unfold Server.page. rewrite Hhost, Hredirect.
      destruct (resolve_locale C req) as [locale|]; [| discriminate].
      unfold Server.gate_and_render.
      destruct (configured_credentials env) as [credentials|];
        [destruct (authorized C credentials req); [| discriminate] |];
        apply render_page_not_redirect.
    + intros locale Hlocale. now apply (page_reaches_gate _ host).
    + intros locale h Hlocale Hh Hgate.
      rewrite (page_reaches_gate _ _ _ Hhost Hredirect Hlocale).
      unfold Server.gate_and_render.
      destruct (configured_credentials env) as [credentials|].
      * rewrite (Hgate _ eq_refl).
        destruct (render_page_present (token_cookie env) locale req h Hh)
          as (model & Hr & _). eauto.
      * destruct (render_page_present [] locale req h Hh) as (model & Hr & _).
        eauto.
Qed.

(** C5, amended.  For a host that is one of the two bare domains or contains
    [electricitymap.tmrow], and is not the staging host: without
    [facebookexternalhit] in the [User-Agent] the answer is a 301 to the
    canonical domain with the original path and query; with it the handler
    does not redirect but goes on to the locale, the gate and the render
    step, and the page is rendered when the gate lets the request through
    and the table has a record for the locale. *)
Theorem canonical_redirect (req : request) (host : string) :
  headers req !! "host" = Some host ->
  host <> "staging.electricitymap.org" ->
  host = "electricitymap.org" \/ host = "live.electricitymap.org"
    \/ occurs "electricitymap.tmrow" host ->
  (~ occurs "facebookexternalhit" (default "" (headers req !! "user-agent")) ->
   page req = Redirect 301 ("https://www.electricitymap.org" +:+ originalUrl req))
  /\ (occurs "facebookexternalhit" (default "" (headers req !! "user-agent")) ->
      (forall status location, page req <> Redirect status location)
      /\ (forall locale, resolve_locale C req = Ok locale ->
            page req = gate_and_render locale req)
      /\ (forall locale h,
            resolve_locale C req = Ok locale ->
            srcHashes !! locale = Some h ->
            (forall credentials, configured_credentials env = Some credentials ->
               authorized C credentials req = true) ->
            exists cookies model,
              page req = Render cookies "pages/index" model)).
Proof.
  intros Hhost Hstaging Halt.
  assert (isStaging host = false) as Hs by now apply String.eqb_neq.
  assert (isNonWWW host || isTmrowCo host = true) as Ha.
  { unfold isNonWWW, isTmrowCo. destruct Halt as [-> | [-> | Hocc]].
    - reflexivity.
    - reflexivity.
    - apply includes_true in Hocc. rewrite Hocc. apply orb_true_r. }
  destruct (page_on_alternate_host req host Hhost Hs Ha) as [Hplain Hcrawler].
  split.
  - intros Hno. apply Hplain. now apply includes_false.
  - intros Hyes. apply Hcrawler. now apply includes_true.
Qed.

(** C10.  For a request that reaches the render step (not redirected,
    [fb_locale] a string if present, the gate passed or absent): when the
    table has no record for the resolved locale the handler throws a
    [TypeError] and nothing is rendered, and that is the case of every
    locale whose manifest failed to load at start-up; with a record the page
    is rendered. *)
Theorem render_throws_without_hashes (req : request) (host locale : string) :
  headers req !! "host" = Some host ->
  redirects_to_canonical host req = false ->
  resolve_locale C req = Ok locale ->
  (forall credentials, configured_credentials env = Some credentials ->
     authorized C credentials req = true) ->
  (srcHashes !! locale = None ->
   exists cookies,
     page req
     = Uncaught cookies
         (TypeError "Cannot read properties of undefined (reading 'BUNDLE_HASH')"))
  /\ (forall e console,
        Assets.load_hashes (readManifest C) locale = Throw e ->
        exists table log cookies,
          Assets.srcHashes_build (readManifest C) (locales cfg) console
            = (Ok table, log)
          /\ table !! locale = None
          /\ Server.page C env cfg table req
             = Uncaught cookies
                 (TypeError "Cannot read properties of undefined (reading 'BUNDLE_HASH')"))
  /\ (forall h, srcHashes !! locale = Some h ->
        exists cookies model, page req = Render cookies "pages/index" model).
Proof.
  intros Hhost Hredirect Hlocale Hgate.
  assert (forall table, Server.page C env cfg table req
            = Server.render_page C cfg table
                (match configured_credentials env with
                 | Some _ => token_cookie env
                 | None => []
                 end) locale req) as Hpage.
  { intros table. unfold Server.page. rewrite Hhost, Hredirect, Hlocale.
    unfold Server.gate_and_render.
    destruct (configured_credentials env) as [credentials|]; [| reflexivity].
    now rewrite (Hgate _ eq_refl). }
  split; [| split].
  - intros Hnone. eexists. rewrite Hpage. now apply render_page_absent.
  - intros e console Hload.
    destruct (AssetsFacts.srcHashes_omits (readManifest C) (locales cfg) console
                locale e Hload) as (table & log & Hbuild & Hnone).
    exists table, log. eexists. split; [exact Hbuild |]. split; [exact Hnone |].
    rewrite Hpage. unfold Server.render_page. now rewrite Hnone.
  - intros h Hh. rewrite Hpage.
    destruct (render_page_present
                (match configured_credentials env with
                 | Some _ => token_cookie env
                 | None => []
                 end) locale req h Hh) as (model & Hr & _).
    eauto.
Qed.

End Page.

(** *** Legacy API paths *)

Lemma api_prefix_shape (version_digit : ascii) (path : string) :
  starts_with (String "/" (String "v" (String version_digit "/"))) path = true ->
  exists rest,
    path = String "/" (String "v" (String version_digit (String "/" rest))).
Proof.
  intros H. apply starts_with_inv in H.
  exists (drop_chars 4 path). exact H.
Qed.

(** No route registered before the API redirects matches a path that starts
    with [/v]. *)
Lemma earlier_routes_skip (C : collaborators) (cfg : site) (req : request)
    (rest : string) :
  path_of (originalUrl req) = String "/" (String "v" rest) ->
  health req = None
  /\ clientVersion cfg req = None
  /\ translationstatus_badges C req = None
  /\ translationstatus C cfg req = None
  /\ translationstatus_language C req = None.
Proof.
  intros Hpath.
  unfold health, clientVersion, translationstatus_badges, translationstatus,
    translationstatus_language.
  rewrite Hpath. destruct (is_get req); repeat split; reflexivity.
Qed.

Lemma api_paths_dispatch (C : collaborators) (env : environment) (cfg : site)
    (srcHashes : gmap string Assets.hashes) (req : request) :
  method req = "GET" ->
  starts_with "/v1/" (path_of (originalUrl req)) = true
  \/ starts_with "/v2/" (path_of (originalUrl req)) = true ->
  app C env cfg srcHashes req
  = Redirect 301 ("https://api.electricitymap.org" +:+ originalUrl req).
Proof.
  intros Hmethod Hpath.
  assert (is_get req = true) as Hget.
  { unfold is_get. now rewrite Hmethod. }
  destruct Hpath as [Hpath | Hpath];
    apply api_prefix_shape in Hpath as (rest & Hpath);
    destruct (earlier_routes_skip C cfg req _ Hpath)
      as (H1 & H2 & H3 & H4 & H5);
    unfold app, routes; cbn [dispatch];
    rewrite H1, H2, H3, H4, H5;
    unfold api_redirect; rewrite Hget, Hpath; reflexivity.
Qed.

(** C8.  A GET request whose path starts with [/v1/] or [/v2/] is answered
    by a 301 to [https://api.electricitymap.org] followed by the original
    path and query string. *)
Theorem api_paths_redirect (C : collaborators) (env : environment) (cfg : site)
    (srcHashes : gmap string Assets.hashes) (req : request) :
  method req = "GET" ->
  (exists rest, path_of (originalUrl req) = "/v1/" +:+ rest)
  \/ (exists rest, path_of (originalUrl req) = "/v2/" +:+ rest) ->
  app C env cfg srcHashes req
  = Redirect 301 ("https://api.electricitymap.org" +:+ originalUrl req).
Proof.
  intros Hmethod Hpath. apply api_paths_dispatch; [exact Hmethod |].
  destruct Hpath as [[rest ->] | [rest ->]]; [left | right];
    apply starts_with_app.
Qed.

Lemma api_paths_redirect_witness :
  app Scenario.collaborators_here Scenario.open_env Scenario.site_here
    Scenario.table_here
    (Scenario.get "www.electricitymap.org" "Mozilla" "/v1/foo?bar=1"
       [("bar", QStr "1")])
  = Redirect 301 "https://api.electricitymap.org/v1/foo?bar=1".
Proof.
  apply (api_paths_redirect Scenario.collaborators_here Scenario.open_env
           Scenario.site_here Scenario.table_here
           (Scenario.get "www.electricitymap.org" "Mozilla" "/v1/foo?bar=1"
              [("bar", QStr "1")])).
  - reflexivity.
  - left. now exists "foo".
Defined.

(** *** The handler on the deployment [Scenario] *)

Local Abbreviation page_premium :=
  (page Scenario.collaborators_here Scenario.premium_env Scenario.site_here
     Scenario.table_here).

Local Abbreviation page_open :=
  (page Scenario.collaborators_here Scenario.open_env Scenario.site_here
     Scenario.table_here).

(** C4 as the specification states it does not hold: with [alice:secret]
    configured, a request without credentials to the bare domain is answered
    by the redirect, not by a 401. *)
Lemma auth_gate_counterexample :
  let req := Scenario.get "electricitymap.org" "Mozilla/5.0" "/" [] in
  configured_credentials Scenario.premium_env = Some "alice:secret"
  /\ auth Scenario.collaborators_here req = None
  /\ page_premium req = Redirect 301 "https://www.electricitymap.org/"
  /\ page_premium req <> Text 401 [("WWW-Authenticate", challenge)] "Access denied".
Proof. cbv zeta. repeat split; try reflexivity. vm_compute. discriminate. Qed.

Lemma alice_secret_well_formed : well_formed_pairs "alice:secret".
Proof.
  intros cred Hin. vm_compute in Hin.
  apply elem_of_cons in Hin as [-> | Hin]; [| now apply elem_of_nil in Hin].
  now exists "alice", "secret".
Qed.

Lemma auth_gate_witness :
  (exists model,
     page_premium Scenario.request_of_alice
     = Render [("electricitymap-token", Some "token")] "pages/index" model)
  /\ page_premium Scenario.request_of_bob
     = Text 401 [("WWW-Authenticate", challenge)] "Access denied"
  /\ (forall hs body, page_open Scenario.request_of_bob <> Text 401 hs body).
Proof.
  split; [| split].
  - refine (proj2 (proj1 (proj2 (auth_gate Scenario.collaborators_here
              Scenario.premium_env Scenario.site_here Scenario.table_here
              Scenario.request_of_alice)
              "www.electricitymap.org" "en" "alice:secret"
              eq_refl eq_refl eq_refl eq_refl alice_secret_well_formed) _)
              Scenario.hashes_en _).
    + exists "alice", "secret". split; [reflexivity |].
      vm_compute. constructor.
    + vm_compute. reflexivity.
  - refine (proj2 (proj2 (auth_gate Scenario.collaborators_here
              Scenario.premium_env Scenario.site_here Scenario.table_here
              Scenario.request_of_bob)
              "www.electricitymap.org" "en" "alice:secret"
              eq_refl eq_refl eq_refl eq_refl alice_secret_well_formed) _).
    intros (name & pass & Hauth & Hin).
    injection Hauth as <- <-.
    vm_compute in Hin. apply elem_of_cons in Hin as [Hin | Hin].
    + discriminate.
    + now apply elem_of_nil in Hin.
  - exact (proj1 (auth_gate Scenario.collaborators_here Scenario.open_env
             Scenario.site_here Scenario.table_here Scenario.request_of_bob)
             eq_refl).
Defined.

(** C5 as the specification states it does not hold: with [alice:secret]
    configured, the Facebook crawler asking the bare domain for a page is
    not redirected, and is answered 401 instead of the rendered page. *)
Lemma canonical_redirect_counterexample :
  let req := Scenario.get "electricitymap.org" "facebookexternalhit/1.1"
               "/zone/DE" [] in
  isNonWWW "electricitymap.org" = true
  /\ isStaging "electricitymap.org" = false
  /\ isFacebookCrawler req = true
  /\ page_premium req = Text 401 [("WWW-Authenticate", challenge)] "Access denied"
  /\ (forall cookies view model, page_premium req <> Render cookies view model).
Proof.
  cbv zeta. repeat split; try reflexivity.
  intros cookies view model. vm_compute. discriminate.
Qed.

Lemma canonical_redirect_witness :
  page_open (Scenario.get "electricitymap.org" "Mozilla/5.0" "/zone/DE?x=1"
               [("x", QStr "1")])
  = Redirect 301 "https://www.electricitymap.org/zone/DE?x=1"
  /\ exists cookies model,
       page_open (Scenario.get "electricitymap.org" "facebookexternalhit/1.1"
                    "/zone/DE?x=1" [("x", QStr "1")])
       = Render cookies "pages/index" model.
Proof.
  split.
  - apply (proj1 (canonical_redirect Scenario.collaborators_here Scenario.open_env
                    Scenario.site_here Scenario.table_here
                    (Scenario.get "electricitymap.org" "Mozilla/5.0" "/zone/DE?x=1"
                       [("x", QStr "1")])
                    "electricitymap.org" eq_refl ltac:(discriminate)
                    (or_introl eq_refl))).
    apply includes_false. reflexivity.
  - apply (proj2 (proj2 (proj2 (canonical_redirect Scenario.collaborators_here
                    Scenario.open_env Scenario.site_here Scenario.table_here
                    (Scenario.get "electricitymap.org" "facebookexternalhit/1.1"
                       "/zone/DE?x=1" [("x", QStr "1")])
                    "electricitymap.org" eq_refl ltac:(discriminate)
                    (or_introl eq_refl))
                  ltac:(apply includes_true; reflexivity)))
             "en" Scenario.hashes_en).
    + reflexivity.
    + vm_compute. reflexivity.
    + intros credentials H. discriminate H.
Defined.

Lemma render_throws_without_hashes_witness :
  exists cookies,
    page_open (Scenario.get "www.electricitymap.org" "facebookexternalhit/1.1"
                 "/?fb_locale=fr_FR" [("fb_locale", QStr "fr_FR")])
    = Uncaught cookies
        (TypeError "Cannot read properties of undefined (reading 'BUNDLE_HASH')").
Proof.
  apply (proj1 (render_throws_without_hashes Scenario.collaborators_here
                  Scenario.open_env Scenario.site_here Scenario.table_here
                  (Scenario.get "www.electricitymap.org" "facebookexternalhit/1.1"
                     "/?fb_locale=fr_FR" [("fb_locale", QStr "fr_FR")])
                  "www.electricitymap.org" "fr" eq_refl eq_refl eq_refl
                  ltac:(intros credentials H; discriminate H))).
  vm_compute. reflexivity.
Defined.

End ServerFacts.

(** * Further properties of the code *)

(** ** Splitting *)

Module SplitFacts.
Import JsString JsStringFacts.

Local Arguments String.append : simpl nomatch.

(** Splitting around a separator splits both sides. *)
Lemma split_around (c : ascii) (a b : string) :
  split c (a +:+ String c b) = split c a ++ split c b.
Proof.
  induction a as [|x a IH]; simpl.
  - now rewrite Ascii.eqb_refl.
  - rewrite IH. destruct (Ascii.eqb x c); [reflexivity |].
    destruct (split c a) as [|h t] eqn:E; [now apply split_nonempty in E |].
    reflexivity.
Qed.

(** A string without the separator is its only field. *)
Lemma split_free (c : ascii) (s : string) :
  free_of c s = true -> split c s = [s].
Proof.
  induction s as [|x s IH]; simpl; [reflexivity |].
  intros [Hx Hs]%andb_true_iff. apply negb_true_iff in Hx. rewrite Hx.
  now rewrite (IH Hs).
Qed.

Lemma drop_chars_past (pre suf : string) (n : nat) :
  drop_chars (String.length pre + n) (pre +:+ suf) = drop_chars n suf.
Proof. induction pre as [|x pre IH]; simpl; [reflexivity | exact IH]. Qed.

(** Whether a string ends with [p] is decided by any suffix of it that is
    at least as long as [p]. *)
Lemma ends_with_suffix (p pre suf : string) :
  (String.length p <= String.length suf)%nat ->
  ends_with p (pre +:+ suf) = ends_with p suf.
Proof.
  intros Hle. unfold ends_with. rewrite length_append.
  replace (String.length pre + String.length suf - String.length p)%nat
    with (String.length pre + (String.length suf - String.length p))%nat by lia.
  rewrite drop_chars_past.
  assert ((String.length p <=? String.length pre + String.length suf)%nat = true)
    as -> by (apply Nat.leb_le; lia).
  assert ((String.length p <=? String.length suf)%nat = true)
    as -> by (apply Nat.leb_le; lia).
  reflexivity.
Qed.

End SplitFacts.

(** ** Translation lookup, continued *)

Module TranslationProps.
Import JsString Translation.

Section Props.

Variable vsprintf : jsval -> list jsval -> outcome jsval.
Variable localeConfigs : gmap string jsval.

Local Abbreviation translateWithLocale := (translateWithLocale vsprintf localeConfigs).
Local Abbreviation lookup_path := (lookup_path localeConfigs).

(** Once the walk has reached [null] or [undefined] it stays there. *)
Lemma walk_nullish (keys : list string) (v : jsval) :
  Js.nullish v = true -> walk keys v = v.
Proof. intros H. destruct keys; simpl; [reflexivity | now rewrite H]. Qed.

Lemma walk_app (keys1 keys2 : list string) (v : jsval) :
  walk (keys1 ++ keys2) v = walk keys2 (walk keys1 v).
Proof.
  revert v. induction keys1 as [|k keys1 IH]; intros v; simpl; [reflexivity |].
  destruct (Js.nullish v) eqn:E; [| apply IH].
  now rewrite walk_nullish.
Qed.

(** X1.  Key paths compose: looking up [a.b] is looking up [a] and walking
    on from there along [b]. *)
Theorem lookup_path_compose (locale a b : string) :
  lookup_path locale (a +:+ "." +:+ b)
  = walk (split "."%char b) (lookup_path locale a).
Proof.
  unfold Translation.lookup_path.
  change (a +:+ "." +:+ b) with (a +:+ String "." b).
  now rewrite SplitFacts.split_around, walk_app.
Qed.

End Props.

(** A key missing in [fr] and in [en]. *)
Lemma translate_missing_witness :
  translateWithLocale (fun _ _ => Throw (ExternalError "unused"))
    (Server.localeConfigs Scenario.site_here) "fr" "country.se" [JStr "x"]
  = Ok JUndefined.
Proof.
  rewrite (TranslationFacts.translate_missing
             (fun _ _ => Throw (ExternalError "unused"))
             (Server.localeConfigs Scenario.site_here) "fr" "country.se"
             [JStr "x"]); reflexivity.
Defined.

End TranslationProps.

(** ** Content hashes, continued *)

Module AssetsProps.
Import JsString JsStringFacts Assets AssetsFacts.

(** A name that ends in [.js] does not match [css], nor one in [.css] [js]. *)
Lemma js_name_is_not_css (pre : string) : matches_ext "css" (pre +:+ ".js") = false.
Proof.
  unfold matches_ext. rewrite SplitFacts.ends_with_suffix by (simpl; lia).
  reflexivity.
Qed.

Lemma css_name_is_not_js (pre : string) : matches_ext "js" (pre +:+ ".css") = false.
Proof.
  unfold matches_ext. rewrite SplitFacts.ends_with_suffix by (simpl; lia).
  reflexivity.
Qed.

(** X5.  One chunk list serves both extensions, as the [vendor] chunk does:
    from [[key.h1.js; key.h2.css]] the extension [js] gives [h1] and the
    extension [css] gives [h2], for dot-free names. *)
Theorem getHash_per_extension (key h1 h2 : string) (obj chunks : jsval) :
  free_of "." key = true -> free_of "." h1 = true -> free_of "." h2 = true ->
  starts_with "js" h1 = false -> starts_with "css" h2 = false ->
  Js.get obj "assetsByChunkName" = Ok chunks ->
  Js.get chunks key
    = Ok (JArr [JStr (key +:+ "." +:+ h1 +:+ "." +:+ "js");
                JStr (key +:+ "." +:+ h2 +:+ "." +:+ "css")]) ->
  getHash key "js" obj = Ok h1 /\ getHash key "css" obj = Ok h2.
Proof.
  intros Hkey H1 H2 Hs1 Hs2 Hobj Hentry.
  assert (matches_ext "js" (key +:+ "." +:+ h1 +:+ "." +:+ "js") = true) as Mjs.
  { rewrite <- !append_assoc. rewrite append_assoc. apply matches_ext_dot. }
  assert (matches_ext "css" (key +:+ "." +:+ h2 +:+ "." +:+ "css") = true) as Mcss.
  { rewrite <- !append_assoc. rewrite append_assoc. apply matches_ext_dot. }
  assert (matches_ext "css" (key +:+ "." +:+ h1 +:+ "." +:+ "js") = false) as Ncss.
  { replace (key +:+ "." +:+ h1 +:+ "." +:+ "js")
      with ((key +:+ "." +:+ h1) +:+ ".js") by now rewrite !append_assoc.
    apply js_name_is_not_css. }
  split.
  - unfold getHash. rewrite Hobj. cbn -[String.append replace matches_ext].
    rewrite Hentry. cbn -[String.append replace matches_ext].
    rewrite Mjs. cbn -[String.append replace matches_ext].
    destruct (matches_ext "js" (key +:+ "." +:+ h2 +:+ "." +:+ "css"));
      cbn -[String.append replace matches_ext];
      rewrite strip_name; try reflexivity;
      apply dot_ext_first_at_end; auto.
  - unfold getHash. rewrite Hobj. cbn -[String.append replace matches_ext].
    rewrite Hentry. cbn -[String.append replace matches_ext].
    rewrite Mcss, Ncss. cbn -[String.append replace matches_ext].
    rewrite strip_name; [reflexivity |].
    apply dot_ext_first_at_end; auto.
Qed.

Lemma getHash_per_extension_witness :
  getHash "vendor" "js" Scenario.manifest_en = Ok "77aa10"
  /\ getHash "vendor" "css" Scenario.manifest_en = Ok "5b5b5b".
Proof.
  apply (getHash_per_extension "vendor" "77aa10" "5b5b5b" Scenario.manifest_en
           _ eq_refl eq_refl eq_refl eq_refl eq_refl eq_refl).
  reflexivity.
Defined.

(** X6.  A chunk list in which no name matches the extension (an empty
    list, for one) makes [getHash] throw; it does not return a name. *)
Theorem getHash_without_match (key ext : string) (names : list string)
    (obj chunks : jsval) :
  Js.get obj "assetsByChunkName" = Ok chunks ->
  Js.get chunks key = Ok (JArr (map JStr names)) ->
  Forall (fun d => matches_ext ext d = false) names ->
  getHash key ext obj
  = Throw (TypeError "Cannot read properties of undefined (reading 'replace')").
Proof.
  intros Hobj Hentry Hnone. unfold getHash. rewrite Hobj.
  cbn -[String.append replace]. rewrite Hentry.
  cbn -[String.append replace]. rewrite filter_ext_strings.
  assert (List.filter (matches_ext ext) names = []) as ->.
  { clear Hentry. induction Hnone as [|d names Hd _ IH]; simpl; [reflexivity |].
    rewrite Hd. exact IH. }
  reflexivity.
Qed.

Lemma getHash_without_match_witness :
  getHash "bundle" "css" Scenario.manifest_en
  = Throw (TypeError "Cannot read properties of undefined (reading 'replace')").
Proof.
  apply (getHash_without_match "bundle" "css"
           ["bundle.abc123.js"; "bundle.abc123.js.map"] Scenario.manifest_en
           _ eq_refl eq_refl).
  repeat constructor.
Defined.

(** A chunk that the manifest does not have. *)
Lemma getHash_missing_chunk (key ext : string) (obj chunks : jsval) :
  Js.get obj "assetsByChunkName" = Ok chunks ->
  Js.get chunks key = Ok JUndefined ->
  exists e, getHash key ext obj = Throw e.
Proof.
  intros Hobj Hentry. unfold getHash. rewrite Hobj.
  cbn -[String.append replace]. rewrite Hentry. eexists. reflexivity.
Qed.

Section Table.

Variable readManifest : string -> outcome jsval.

(** X7.  A manifest that lacks one of the chunks [bundle], [styles] or
    [vendor] gives no record at all: the locale is left out of the table,
    also when the other chunks are there. *)
Theorem missing_chunk_omits_locale (locales console : list string)
    (k chunk : string) (obj chunks : jsval) :
  readManifest k = Ok obj ->
  Js.get obj "assetsByChunkName" = Ok chunks ->
  chunk ∈ ["bundle"; "styles"; "vendor"] ->
  Js.get chunks chunk = Ok JUndefined ->
  exists table log,
    srcHashes_build readManifest locales console = (Ok table, log)
    /\ table !! k = None.
Proof.
  intros Hread Hobj Hchunk Habsent.
  assert (exists e, load_hashes readManifest k = Throw e) as [e He].
  { unfold load_hashes. rewrite Hread. cbn [mbind outcome_bind].
    pose proof (fun ext => getHash_missing_chunk chunk ext obj chunks Hobj Habsent)
      as Hthrow.
    repeat (apply elem_of_cons in Hchunk as [-> | Hchunk]);
      [| | | now apply elem_of_nil in Hchunk].
    - destruct (Hthrow "js") as [e ->]. eauto.
    - destruct (getHash "bundle" "js" obj); [| eauto].
      cbn [mbind outcome_bind]. destruct (Hthrow "css") as [e ->]. eauto.
    - destruct (getHash "bundle" "js" obj); [| eauto].
      cbn [mbind outcome_bind].
      destruct (getHash "styles" "css" obj); [| eauto].
      cbn [mbind outcome_bind]. destruct (Hthrow "js") as [e ->]. eauto. }
  exact (srcHashes_omits readManifest locales console k e He).
Qed.

(** X8.  The table depends on which locales are configured, not on their
    order nor on repetitions in the list, nor on what the console held. *)
Theorem table_depends_on_locale_set (l1 l2 console1 console2 : list string) :
  (forall k, k ∈ l1 <-> k ∈ l2) ->
  (srcHashes_build readManifest l1 console1).1
  = (srcHashes_build readManifest l2 console2).1.
Proof.
  intros Hsame. rewrite !srcHashes_build_run. simpl. f_equal.
  apply map_eq. intros k. rewrite !fromEntries_lookup.
  destruct (decide (k ∈ l1)) as [H1 | H1], (decide (k ∈ l2)) as [H2 | H2];
    try reflexivity.
  - exfalso. now apply H2, Hsame.
  - exfalso. now apply H1, Hsame.
Qed.

End Table.

Lemma missing_chunk_omits_locale_witness :
  exists table log,
    srcHashes_build
      (fun _ => Ok (JObj [("assetsByChunkName",
                           JObj [("bundle", JStr "bundle.abc123.js")])]))
      ["en"] [] = (Ok table, log)
    /\ table !! "en" = None.
Proof.
  apply (missing_chunk_omits_locale _ ["en"] [] "en" "styles"
           (JObj [("assetsByChunkName", JObj [("bundle", JStr "bundle.abc123.js")])])
           (JObj [("bundle", JStr "bundle.abc123.js")])
           eq_refl eq_refl).
  - right. left.
  - reflexivity.
Defined.

Lemma table_depends_on_locale_set_witness :
  (srcHashes_build Scenario.manifests ["en"; "de"; "fr"] []).1
  = (srcHashes_build Scenario.manifests ["fr"; "de"; "en"; "de"] ["booting"]).1.
Proof.
  apply (table_depends_on_locale_set Scenario.manifests).
  intros k. rewrite !elem_of_cons, !elem_of_nil. tauto.
Defined.

End AssetsProps.

(** ** The application, continued *)

Module ServerProps.
Import JsString JsStringFacts Server.

Section Responses.

Variable C : collaborators.
Variable env : environment.
Variable cfg : site.
Variable srcHashes : gmap string Assets.hashes.

Local Abbreviation app := (app C env cfg srcHashes).
Local Abbreviation page := (page C env cfg srcHashes).

(** Where a response of the application comes from. *)
Lemma app_cases (req : request) :
  (exists body, app req = Json 200 body)
  \/ (exists hs body, app req = Text 200 hs body)
  \/ app req = Redirect 301 ("https://api.electricitymap.org" +:+ originalUrl req)
  \/ (app req = Json 401 (JObj [("error", JStr "unauthorized")])
      /\ exists ip, headers req !! "x-forwarded-for" = Some ip
                    /\ ip ∈ sentry_addresses)
  \/ (app req = Static (path_of (originalUrl req))
      /\ is_get req = true
      /\ static_file C (path_of (originalUrl req)) = true)
  \/ app req = page req.
Proof.
  unfold Server.app, routes. cbn [dispatch].
  unfold health. destruct (is_get req && route_exact "/health" _); [eauto |].
  unfold clientVersion.
  destruct (is_get req && route_exact "/clientVersion" _); [eauto 6 |].
  unfold translationstatus_badges.
  destruct (is_get req && route_exact "/translationstatus/badges.svg" _);
    [eauto 6 |].
  unfold translationstatus.
  destruct (is_get req && route_exact "/translationstatus" _); [eauto |].
  unfold translationstatus_language.
  destruct (is_get req) eqn:Hget.
  - destruct (route_param "/translationstatus/" _); [eauto |].
    unfold api_redirect. rewrite Hget.
    destruct (true && route_star "/v1/" _); [eauto 6 |].
    destruct (true && route_star "/v2/" _); [eauto 6 |].
    unfold source_maps, static_files. rewrite Hget.
    destruct (route_star_suffix "/dist/" ".map" _).
    + destruct (headers req !! "x-forwarded-for") as [ip|] eqn:Hip.
      * destruct (bool_decide (ip ∈ sentry_addresses)) eqn:Hin.
        { apply bool_decide_eq_true in Hin. do 3 right. left. eauto. }
        destruct (static_file C _) eqn:Hs; cbn; eauto 10.
      * destruct (static_file C _) eqn:Hs; cbn; eauto 10.
    + destruct (static_file C _) eqn:Hs; cbn; eauto 10.
  - unfold api_redirect. rewrite Hget. cbn.
    unfold source_maps, static_files. rewrite Hget.
    destruct (route_star_suffix "/dist/" ".map" _); cbn; [| eauto 10].
    destruct (headers req !! "x-forwarded-for") as [ip|] eqn:Hip; [| eauto 10].
    destruct (bool_decide (ip ∈ sentry_addresses)) eqn:Hin; [| eauto 10].
    apply bool_decide_eq_true in Hin. do 3 right. left. eauto.
Qed.

(** What the render step can answer. *)
Lemma render_page_cases (cookies : list (string * option string))
    (locale : string) (req : request) :
  (srcHashes !! locale = None
   /\ render_page C cfg srcHashes cookies locale req
      = Uncaught cookies
          (TypeError "Cannot read properties of undefined (reading 'BUNDLE_HASH')"))
  \/ exists model,
       render_page C cfg srcHashes cookies locale req
       = Render cookies "pages/index" model.
Proof.
  unfold render_page. destruct (srcHashes !! locale); eauto.
Qed.

(** Where a response of the page handler comes from. *)
Lemma page_cases (req : request) :
  (headers req !! "host" = None /\ exists e, page req = Uncaught [] e)
  \/ page req = Redirect 301 ("https://www.electricitymap.org" +:+ originalUrl req)
  \/ (exists e, resolve_locale C req = Throw e /\ page req = Uncaught [] e)
  \/ (exists credentials,
        configured_credentials env = Some credentials
        /\ authorized C credentials req = false
        /\ page req = Text 401 [("WWW-Authenticate", challenge)] "Access denied")
  \/ (exists locale cookies,
        resolve_locale C req = Ok locale
        /\ page req = render_page C cfg srcHashes cookies locale req).
Proof.
  unfold Server.page. destruct (headers req !! "host") as [host|]; [| eauto].
  destruct (redirects_to_canonical host req); [eauto |].
  destruct (resolve_locale C req) as [locale | e]; [| eauto 6].
  unfold gate_and_render.
  destruct (configured_credentials env) as [credentials|]; [| eauto 10].
  destruct (authorized C credentials req) eqn:E; [eauto 10 |].
  do 3 right. left. exists credentials. now repeat split.
Qed.

(** X11.  A 401 in plain text is only ever the Basic-Auth challenge: a
    credential list is configured, the request is not authorized by it, and
    the response carries the [WWW-Authenticate] header and the body
    [Access denied]. *)
Theorem denial_provenance (req : request) (hs : list (string * string))
    (body : string) :
  app req = Text 401 hs body ->
  exists credentials,
    configured_credentials env = Some credentials
    /\ authorized C credentials req = false
    /\ hs = [("WWW-Authenticate", challenge)]
    /\ body = "Access denied".
Proof.
  intros H.
  destruct (app_cases req)
    as [[b E] | [(hs' & b & E) | [E | [[E _] | [[E _] | E]]]]];
    rewrite E in H; try discriminate.
  destruct (page_cases req)
    as [[_ [e E']] | [E' | [(e & _ & E') | [(c & Hc & Ha & E') | (l & k & _ & E')]]]];
    rewrite E' in H; try discriminate.
  - injection H as <- <-. now exists c.
  - destruct (render_page_cases k l req) as [[_ R] | [m R]];
      rewrite R in H; discriminate.
Qed.

(** X13.  The redirect leads somewhere that is not redirected again: a
    request to the canonical host is never answered by a redirect. *)
Theorem canonical_host_not_redirected (req : request) :
  headers req !! "host" = Some "www.electricitymap.org" ->
  forall status location, page req <> Redirect status location.
Proof.
  intros Hhost status location H.
  destruct (page_cases req)
    as [[Hh _] | [E' | [(e' & _ & E') | [(c & _ & _ & E') | (l & k & _ & E')]]]].
  - congruence.
  - clear E'. unfold Server.page in H. rewrite Hhost in H.
    change (redirects_to_canonical "www.electricitymap.org" req) with false in H.
    destruct (resolve_locale C req) as [locale|]; [| discriminate].
    unfold gate_and_render in H.
    destruct (configured_credentials env) as [credentials|];
      [destruct (authorized C credentials req); [| discriminate] |];
      now apply ServerFacts.render_page_not_redirect in H.
  - rewrite E' in H. discriminate.
  - rewrite E' in H. discriminate.
  - rewrite E' in H.
    now apply ServerFacts.render_page_not_redirect in H.
Qed.

End Responses.

End ServerProps.

(** ** Locale, credentials and alternate URLs *)

Module HandlerProps.
Import JsString JsStringFacts Server.

Local Arguments String.append : simpl nomatch.

Lemma append_separator_nonempty (a : string) (c : ascii) (b : string) :
  String.eqb (a +:+ String c b) "" = false.
Proof. now destruct a. Qed.

Lemma free_of_occurs (c : ascii) (s before after : string) :
  free_of c s = true -> s <> before +:+ String c after.
Proof.
  intros Hfree ->. now rewrite free_of_separator in Hfree.
Qed.

(** The fields of a string without [c] are without [c], whatever the
    separator. *)
Lemma split_fields_free (c d : ascii) (s : string) :
  free_of c s = true -> Forall (fun field => free_of c field = true) (split d s).
Proof.
  induction s as [|x s IH]; simpl.
  - intros _. now repeat constructor.
  - intros [Hx Hs]%andb_true_iff. specialize (IH Hs).
    destruct (Ascii.eqb x d).
    + now constructor.
    + destruct (split d s) as [|h t]; [now repeat constructor; simpl; rewrite Hx |].
      inversion IH as [|? ? Hh Ht]; subst. constructor; [| exact Ht].
      simpl. now rewrite Hx, Hh.
Qed.

Section Handler.

Variable C : collaborators.

(** X14.  [fb_locale=lang_REGION] selects [lang]: the locale of the response
    is what [setLocale] makes of the text before the first underscore, and
    what [i18n] had chosen from the request is not consulted. *)
Theorem fb_locale_selects_language (req : request) (lang region : string) :
  query_get "fb_locale" (query req) = Some (QStr (lang +:+ "_" +:+ region)) ->
  free_of "_" lang = true ->
  resolve_locale C req = Ok (setLocale C lang).
Proof.
  intros Hq Hfree. unfold resolve_locale. rewrite Hq.
  change (lang +:+ "_" +:+ region) with (lang +:+ String "_" region).
  rewrite append_separator_nonempty. unfold split_limit.
  rewrite SplitFacts.split_around, (SplitFacts.split_free _ _ Hfree).
  reflexivity.
Qed.

(** X15.  Configured lists add up: a request is authorized by the list
    [a,b] exactly when it is authorized by [a] or by [b]. *)
Theorem authorized_union (a b : string) (req : request) :
  authorized C (a +:+ "," +:+ b) req
  = authorized C a req || authorized C b req.
Proof.
  unfold authorized. destruct (auth C req) as [user|]; [| reflexivity].
  change (a +:+ "," +:+ b) with (a +:+ String "," b).
  now rewrite SplitFacts.split_around, existsb_app.
Qed.

(** X16.  A configured list without any colon authorizes nobody: an entry
    that is a bare name has no password, and no request matches it. *)
Theorem colonless_list_authorizes_nobody (credentials : string) (req : request) :
  free_of ":" credentials = true ->
  authorized C credentials req = false.
Proof.
  intros Hfree. unfold authorized. destruct (auth C req) as [user|]; [| reflexivity].
  pose proof (split_fields_free ":" "," credentials Hfree) as Hfields.
  induction Hfields as [|cred rest Hcred _ IH]; [reflexivity |].
  simpl. rewrite IH, orb_false_r. unfold credential_matches.
  now rewrite (SplitFacts.split_free _ _ Hcred).
Qed.

(** X17.  The alternate URL of the language the request is in is the
    current URL: when [lang=v] occurs in the URL and [v] is the [lang]
    parameter, switching to [v] changes nothing. *)
Theorem alternateUrl_same_language (req : request) (v : string) :
  query_get "lang" (query req) = Some (QStr v) ->
  occurs ("lang=" +:+ v) ("https://www.electricitymap.org" +:+ originalUrl req) ->
  free_of "$" v = true ->
  alternateUrl req v = "https://www.electricitymap.org" +:+ originalUrl req.
Proof.
  intros Hq Hocc Hfree. unfold alternateUrl.
  assert (includes "lang" ("https://www.electricitymap.org" +:+ originalUrl req)
          = true) as ->.
  { apply includes_true. destruct Hocc as (before & after & ->).
    exists before, ("=" +:+ v +:+ after).
    now rewrite !append_assoc. }
  rewrite Hq. cbn [query_param_to_string qvalue_to_string].
  unfold replace.
  destruct (split_at_first_complete _ _ Hocc) as (before & after & Hs).
  rewrite Hs. rewrite get_substitution_plain.
  - symmetry. now apply split_at_first_sound.
  - rewrite free_of_app, Hfree. reflexivity.
Qed.

End Handler.

Lemma fb_locale_selects_language_witness :
  resolve_locale Scenario.collaborators_here
    (Scenario.get "www.electricitymap.org" "facebookexternalhit/1.1"
       "/?fb_locale=de_DE" [("fb_locale", QStr "de_DE")])
  = Ok "de".
Proof.
  exact (fb_locale_selects_language Scenario.collaborators_here
           (Scenario.get "www.electricitymap.org" "facebookexternalhit/1.1"
              "/?fb_locale=de_DE" [("fb_locale", QStr "de_DE")])
           "de" "DE" eq_refl eq_refl).
Defined.

Lemma colonless_list_authorizes_nobody_witness :
  authorized Scenario.collaborators_here "secret,alice" Scenario.request_of_alice
  = false.
Proof.
  exact (colonless_list_authorizes_nobody Scenario.collaborators_here
           "secret,alice" Scenario.request_of_alice eq_refl).
Defined.

Lemma alternateUrl_same_language_witness :
  alternateUrl (Scenario.get "www.electricitymap.org" "Mozilla" "/map?lang=de&solar=true"
                  [("lang", QStr "de"); ("solar", QStr "true")]) "de"
  = "https://www.electricitymap.org/map?lang=de&solar=true".
Proof.
  apply (alternateUrl_same_language
           (Scenario.get "www.electricitymap.org" "Mozilla" "/map?lang=de&solar=true"
              [("lang", QStr "de"); ("solar", QStr "true")]) "de" eq_refl).
  - apply includes_true. reflexivity.
  - reflexivity.
Defined.

(** Switching [/map?lang=de&solar=true] to English. *)
Lemma alternateUrl_replaces_witness :
  alternateUrl (Scenario.get "www.electricitymap.org" "Mozilla" "/map?lang=de&solar=true"
                  [("lang", QStr "de"); ("solar", QStr "true")]) "en"
  = "https://www.electricitymap.org/map?lang=en&solar=true".
Proof.
  exact (ServerFacts.alternateUrl_replaces
           (Scenario.get "www.electricitymap.org" "Mozilla" "/map?lang=de&solar=true"
              [("lang", QStr "de"); ("solar", QStr "true")])
           "en" "de" "https://www.electricitymap.org/map?" "&solar=true"
           eq_refl eq_refl eq_refl eq_refl).
Defined.

End HandlerProps.

(** ** Routing, continued *)

Module RoutingProps.
Import JsString JsStringFacts Server.

(** X18.  The API redirect is for GET and HEAD only: any other method on a
    path under [/v1/] or [/v2/] is handled by the page handler, like any
    other path. *)
Theorem api_paths_other_methods (C : collaborators) (env : environment)
    (cfg : site) (srcHashes : gmap string Assets.hashes) (req : request) :
  method req <> "GET" -> method req <> "HEAD" ->
  (exists rest, path_of (originalUrl req) = "/v1/" +:+ rest)
  \/ (exists rest, path_of (originalUrl req) = "/v2/" +:+ rest) ->
  app C env cfg srcHashes req = page C env cfg srcHashes req.
Proof.
  intros Hget Hhead Hpath.
  assert (is_get req = false) as Hno.
  { unfold is_get. apply String.eqb_neq in Hget, Hhead. now rewrite Hget, Hhead. }
  assert (exists rest, path_of (originalUrl req) = String "/" (String "v" rest))
    as [rest Hshape].
  { destruct Hpath as [[rest ->] | [rest ->]]; eexists; reflexivity. }
  destruct (ServerFacts.earlier_routes_skip C cfg req _ Hshape)
    as (H1 & H2 & H3 & H4 & H5).
  unfold app, routes. cbn [dispatch]. rewrite H1, H2, H3, H4, H5.
  unfold api_redirect, source_maps, static_files. rewrite Hno, Hshape.
  reflexivity.
Qed.

Local Abbreviation app_open :=
  (app Scenario.collaborators_here Scenario.open_env Scenario.site_here
     Scenario.table_here).

Local Abbreviation app_premium :=
  (app Scenario.collaborators_here Scenario.premium_env Scenario.site_here
     Scenario.table_here).

Lemma api_paths_other_methods_witness :
  app_open (Scenario.with_method "POST"
              (Scenario.get "www.electricitymap.org" "curl" "/v1/state" []))
  = page Scenario.collaborators_here Scenario.open_env Scenario.site_here
      Scenario.table_here
      (Scenario.with_method "POST"
         (Scenario.get "www.electricitymap.org" "curl" "/v1/state" [])).
Proof.
  apply (api_paths_other_methods Scenario.collaborators_here Scenario.open_env
           Scenario.site_here Scenario.table_here
           (Scenario.with_method "POST"
              (Scenario.get "www.electricitymap.org" "curl" "/v1/state" []))).
  - discriminate.
  - discriminate.
  - left. now exists "state".
Defined.

Lemma denial_provenance_witness :
  exists credentials,
    configured_credentials Scenario.premium_env = Some credentials
    /\ authorized Scenario.collaborators_here credentials Scenario.request_of_bob
       = false
    /\ [("WWW-Authenticate", challenge)] = [("WWW-Authenticate", challenge)]
    /\ "Access denied" = "Access denied".
Proof.
  apply (ServerProps.denial_provenance Scenario.collaborators_here
           Scenario.premium_env Scenario.site_here Scenario.table_here
           Scenario.request_of_bob).
  vm_compute. reflexivity.
Defined.

Lemma canonical_host_not_redirected_witness :
  page Scenario.collaborators_here Scenario.premium_env Scenario.site_here
    Scenario.table_here Scenario.request_of_bob
  <> Redirect 301 "https://www.electricitymap.org/".
Proof.
  exact (ServerProps.canonical_host_not_redirected Scenario.collaborators_here
           Scenario.premium_env Scenario.site_here Scenario.table_here
           Scenario.request_of_bob eq_refl 301%nat
           "https://www.electricitymap.org/").
Defined.

End RoutingProps.

(** ** Content hashes: a witness *)

Module RenderProps.
Import JsString JsStringFacts Server.

Lemma getHash_dot_free_witness :
  Assets.getHash "styles" "css" Scenario.manifest_en = Ok "0f1e2d".
Proof.
  exact (AssetsFacts.getHash_dot_free "styles" "css" "0f1e2d" Scenario.manifest_en
           _ eq_refl eq_refl eq_refl eq_refl eq_refl eq_refl).
Defined.

End RenderProps.

(** ** Redirects of the page handler *)

Module RedirectProps.
Import JsString JsStringFacts Server.

(** X9.  The page handler redirects only what line 162 names: a redirect it
    answers is a 301 to the canonical host followed by the URL as it was
    requested, and the request then has a [Host] header that is not the
    staging host and is one of the two bare domains or contains
    [electricitymap.tmrow], and a [User-Agent] without
    [facebookexternalhit]. *)
Theorem page_redirects_only_alternate_hosts (C : collaborators)
    (env : environment) (cfg : site) (srcHashes : gmap string Assets.hashes)
    (req : request) (status : nat) (location : string) :
  page C env cfg srcHashes req = Redirect status location ->
  status = 301%nat
  /\ location = "https://www.electricitymap.org" +:+ originalUrl req
  /\ exists host,
       headers req !! "host" = Some host
       /\ host <> "staging.electricitymap.org"
       /\ (host = "electricitymap.org" \/ host = "live.electricitymap.org"
           \/ occurs "electricitymap.tmrow" host)
       /\ ~ occurs "facebookexternalhit" (default "" (headers req !! "user-agent")).
Proof.
  unfold page. destruct (headers req !! "host") as [host|] eqn:Hhost;
    [| discriminate].
  destruct (redirects_to_canonical host req) eqn:Hredirect.
  - intros [= <- <-]. split; [reflexivity |]. split; [reflexivity |].
    exists host. split; [reflexivity |].
    unfold redirects_to_canonical in Hredirect.
    apply andb_true_iff in Hredirect as [Hrest Hua].
    apply andb_true_iff in Hrest as [Hstaging Halt].
    apply negb_true_iff in Hstaging, Hua. split; [| split].
    + now apply String.eqb_neq.
    + unfold isNonWWW, isTmrowCo in Halt.
      apply orb_true_iff in Halt as [Hbare | Htmrow].
      * apply orb_true_iff in Hbare as [H | H]; apply String.eqb_eq in H; auto.
      * right. right. now apply includes_true.
    + now apply includes_false.
  - destruct (resolve_locale C req) as [locale|]; [| discriminate].
    unfold gate_and_render.
    destruct (configured_credentials env) as [credentials|];
      [destruct (authorized C credentials req); [| discriminate] |];
      intros H; now apply ServerFacts.render_page_not_redirect in H.
Qed.

Lemma page_redirects_only_alternate_hosts_witness :
  301%nat = 301%nat
  /\ "https://www.electricitymap.org/zone/DE?x=1"
     = "https://www.electricitymap.org" +:+ "/zone/DE?x=1"
  /\ exists host,
       ({[ "host" := "live.electricitymap.org"; "user-agent" := "Mozilla/5.0" ]}
          : gmap string string) !! "host" = Some host
       /\ host <> "staging.electricitymap.org"
       /\ (host = "electricitymap.org" \/ host = "live.electricitymap.org"
           \/ occurs "electricitymap.tmrow" host)
       /\ ~ occurs "facebookexternalhit"
            (default ""
               (({[ "host" := "live.electricitymap.org";
                    "user-agent" := "Mozilla/5.0" ]} : gmap string string)
                  !! "user-agent")).
Proof.
  apply (page_redirects_only_alternate_hosts Scenario.collaborators_here
           Scenario.open_env Scenario.site_here Scenario.table_here
           (Scenario.get "live.electricitymap.org" "Mozilla/5.0" "/zone/DE?x=1"
              [("x", QStr "1")])).
  vm_compute. reflexivity.
Defined.

End RedirectProps.

(** ** Percentages *)

Module MathFacts.
Import MathHelpers.

(** The numbers that are not finite are the infinities and [NaN]. *)
Lemma isFinite_spec (x : float) :
  isFinite x
  = match Prim2SF x with
    | S754_zero _ | S754_finite _ _ _ => true
    | S754_infinity _ | S754_nan => false
    end.
Proof.
  unfold isFinite, is_finite, is_nan, is_infinity.
  rewrite !FloatAxioms.eqb_spec, abs_spec.
  change (Prim2SF infinity) with (S754_infinity false).
  destruct (Prim2SF x) as [s | s | | s m e]; try reflexivity; [now destruct s |].
  unfold SFeqb, SFabs, SFcompare.
  rewrite Z.compare_refl, Pos.compare_cont_refl.
  now destruct s.
Qed.

Lemma not_finite_cases (x : float) :
  isFinite x = false ->
  (exists s, Prim2SF x = S754_infinity s) \/ Prim2SF x = S754_nan.
Proof.
  rewrite isFinite_spec. destruct (Prim2SF x); try discriminate; eauto.
Qed.

(** What is not finite stays so through the three steps of line 4. *)
Lemma times_10000_not_finite (a : float) :
  isFinite a = false -> isFinite (a * 10000)%float = false.
Proof.
  intros H. apply not_finite_cases in H. rewrite isFinite_spec, mul_spec.
  change (Prim2SF 10000) with (S754_finite false 5497558138880000 (-39)).
  destruct H as [[s ->] | ->]; reflexivity.
Qed.

Lemma round_not_finite (a : float) : isFinite a = false -> round a = a.
Proof.
  intros H. apply not_finite_cases in H. unfold round.
  destruct H as [[s ->] | ->]; reflexivity.
Qed.

Lemma over_100_not_finite (a : float) :
  isFinite a = false -> isFinite (a / 100)%float = false.
Proof.
  intros H. apply not_finite_cases in H. rewrite isFinite_spec, div_spec.
  change (Prim2SF 100) with (S754_finite false 7036874417766400 (-46)).
  destruct H as [[s ->] | ->]; reflexivity.
Qed.

(** A quotient is not finite when the dividend is not, when the divisor is
    zero, and when the divisor is [NaN]. *)
Lemma quotient_of_not_finite (value total : float) :
  isFinite value = false -> isFinite (value / total)%float = false.
Proof.
  intros H. apply not_finite_cases in H. rewrite isFinite_spec, div_spec.
  destruct H as [[s ->] | ->]; [| reflexivity].
  now destruct (Prim2SF total).
Qed.

Lemma quotient_by_zero (value total : float) :
  total = zero \/ total = neg_zero -> isFinite (value / total)%float = false.
Proof.
  intros H. rewrite isFinite_spec, div_spec.
  destruct H as [-> | ->].
  - change (Prim2SF zero) with (S754_zero false). now destruct (Prim2SF value).
  - change (Prim2SF neg_zero) with (S754_zero true). now destruct (Prim2SF value).
Qed.

Lemma quotient_by_nan (value : float) : isFinite (value / nan)%float = false.
Proof.
  rewrite isFinite_spec, div_spec. change (Prim2SF nan) with S754_nan.
  now destruct (Prim2SF value).
Qed.

Section Percent.

Variable toString : float -> string.

(** A quotient that is not finite gives the question mark. *)
Lemma question_mark (value total : float) :
  isFinite (value / total)%float = false ->
  getRatioPercent toString value total = "?".
Proof.
  intros H. unfold getRatioPercent.
  apply times_10000_not_finite in H.
  rewrite (round_not_finite _ H).
  now rewrite (over_100_not_finite _ H).
Qed.

(** C9, amended.  For every two doubles [getRatioPercent] returns a string:
    with [perc] the double [Math.round(value / total * 10000) / 100], it is
    [perc] converted to a string when [perc] is finite and the question
    mark otherwise.  It is the question mark whenever [total] is [+0] or
    [-0], whenever [value] is not finite, and whenever [total] is [NaN]. *)
Theorem getRatioPercent_cases (value total : float) :
  (isFinite (round (value / total * 10000) / 100)%float = true ->
   getRatioPercent toString value total
   = toString (round (value / total * 10000) / 100)%float)
  /\ (isFinite (round (value / total * 10000) / 100)%float = false ->
      getRatioPercent toString value total = "?")
  /\ (total = zero \/ total = neg_zero ->
      getRatioPercent toString value total = "?")
  /\ (isFinite value = false -> getRatioPercent toString value total = "?")
  /\ (total = nan -> getRatioPercent toString value total = "?").
Proof.
  split; [| split; [| split; [| split]]].
  - intros H. unfold getRatioPercent. now rewrite H.
  - intros H. unfold getRatioPercent. now rewrite H.
  - intros H. now apply question_mark, quotient_by_zero.
  - intros H. now apply question_mark, quotient_of_not_finite.
  - intros ->. apply question_mark, quotient_by_nan.
Qed.

End Percent.

Lemma getRatioPercent_cases_witness :
  getRatioPercent Scenario.show_number 1 4 = "25"
  /\ getRatioPercent Scenario.show_number 1 0 = "?"
  /\ getRatioPercent Scenario.show_number infinity 4 = "?".
Proof.
  split; [| split].
  - rewrite (proj1 (getRatioPercent_cases Scenario.show_number 1 4));
      reflexivity.
  - apply (proj1 (proj2 (proj2 (getRatioPercent_cases Scenario.show_number 1 0)))).
    now left.
  - apply (proj1 (proj2 (proj2 (proj2
             (getRatioPercent_cases Scenario.show_number infinity 4))))).
    reflexivity.
Defined.

(** C9 as it is stated does not hold.  For [value] the double of 1e305 and
    [total = 1] both inputs are finite, [total] is not zero and
    [value / total * 100] is a finite integer, which rounding to two
    decimal places leaves as it is; but [value / total * 10000] overflows,
    and the result is the question mark, whatever renders numbers. *)
Lemma getRatioPercent_counterexample :
  isFinite 0x1.23a516e82d9bap+1013 = true
  /\ isFinite 1 = true
  /\ (1 =? 0)%float = false
  /\ isFinite (0x1.23a516e82d9bap+1013 / 1 * 100)%float = true
  /\ round (0x1.23a516e82d9bap+1013 / 1 * 100)%float
     = (0x1.23a516e82d9bap+1013 / 1 * 100)%float
  /\ isFinite (0x1.23a516e82d9bap+1013 / 1 * 10000)%float = false
  /\ (forall toString : float -> string,
        getRatioPercent toString 0x1.23a516e82d9bap+1013 1 = "?").
Proof. repeat split; vm_compute; reflexivity. Qed.

End MathFacts.
